(** * TLogs/TlogToCSV.py: telemetry logs to one aligned table

    A shallow embedding of [process_single_tlog] and [main] together with
    the part of pandas and of the MAVLink reader they rely on.

    - Python floats are IEEE binary64 numbers: primitive floats, with
      [nan] as pandas' marker of a missing cell.
    - A row dictionary built by the read loop is an association list in
      insertion order, because the order of the keys decides the order
      of the columns of the frame built from the rows.
    - A [DataFrame] keeps its column labels and, for every row, the index
      label pandas gives it (the position of the message in the log) and
      the cells by column.
    - [print], [raise] and the value returned are threaded through a small
      output/exception monad. *)

From Stdlib Require Import ZArith List String Ascii Bool Lia Sorted.
From Stdlib Require Import Floats.PrimFloat Numbers.Cyclic.Int63.Uint63.
Import ListNotations.

Open Scope string_scope.
Open Scope list_scope.

(** ** Python values and dictionaries *)

Module Py.

(** [float(n)] for a Python integer, as the division [n / 1000.0] applies
    it to its left operand.  Exact on the 8- and 16-bit MAVLink fields. *)
Definition float_of_int (n : Z) : float :=
  if (n <? 0)%Z
  then PrimFloat.opp (PrimFloat.of_uint63 (Uint63.of_Z (- n)))
  else PrimFloat.of_uint63 (Uint63.of_Z n).

(** The content of one cell: a number or a string.  An integer is held as
    its float image, which is how pandas stores a numeric column that has
    a missing cell, and Python's [==] identifies the two. *)
Inductive cell : Type :=
| Num (x : float)
| Str (s : string).

Definition NaN : cell := Num PrimFloat.nan.

(** [pd.isna] on one cell. *)
Definition isna (v : cell) : bool :=
  match v with
  | Num x => PrimFloat.is_nan x
  | Str _ => false
  end.

Definition notna (v : cell) : bool := negb (isna v).

(** [==] between a cell of an object column and a string literal. *)
Definition eq_str (v : cell) (s : string) : bool :=
  match v with
  | Str s' => String.eqb s' s
  | Num _ => false
  end.

Definition dict : Type := list (string * cell).

Definition keys (d : dict) : list string := map fst d.

Fixpoint get (d : dict) (k : string) : option cell :=
  match d with
  | [] => None
  | (k', v) :: d' => if String.eqb k' k then Some v else get d' k
  end.

(** [d[k] = v]: overwrite in place, or append a new key at the end. *)
Fixpoint setitem (d : dict) (k : string) (v : cell) : dict :=
  match d with
  | [] => [(k, v)]
  | (k', v') :: d' =>
      if String.eqb k' k then (k, v) :: d' else (k', v') :: setitem d' k v
  end.

Definition mem (k : string) (ks : list string) : bool :=
  existsb (String.eqb k) ks.

(** [os.path.basename] of posixpath: [p[p.rfind('/') + 1:]]. *)
Fixpoint rfind (ch : ascii) (s : string) : Z :=
  match s with
  | EmptyString => (-1)%Z
  | String c r =>
      let k := rfind ch r in
      if (0 <=? k)%Z then (k + 1)%Z
      else if Ascii.eqb c ch then 0%Z else (-1)%Z
  end.

Definition basename (p : string) : string :=
  let i := Z.to_nat (rfind "/"%char p + 1) in
  String.substring i (String.length p - i) p.

End Py.

(** ** pandas *)

Module Pd.
Import Py.

(** [rows] pairs the index label of a row with its cells keyed by column;
    every row has exactly the keys [columns], in that order. *)
Record DataFrame : Type := mkDataFrame {
  columns : list string;
  rows : list (nat * dict)
}.

(** [Index.union(other, sort=False)]: the labels of [acc], then the new
    labels of [ks] in their order. *)
Fixpoint union (acc ks : list string) : list string :=
  match ks with
  | [] => acc
  | k :: ks' => union (if mem k acc then acc else acc ++ [k]) ks'
  end.

Definition union_all (acc : list string) (kss : list (list string)) : list string :=
  fold_left union kss acc.

(** One record laid out on the columns [cols]; a column the record does
    not have is a missing cell. *)
Definition reindex (cols : list string) (d : dict) : dict :=
  map (fun c => (c, match get d c with Some v => v | None => NaN end)) cols.

(** [pd.DataFrame(data_rows)] for a list of dictionaries: the columns are
    the keys in order of first appearance, the index is 0, 1, 2, ... *)
Definition from_records (data_rows : list dict) : DataFrame :=
  let cols := union_all [] (map keys data_rows) in
  {| columns := cols;
     rows := combine (seq 0 (List.length data_rows)) (map (reindex cols) data_rows) |}.

(** One step of the forward fill: a missing cell takes the cell of the
    row above, when there is one. *)
Definition fill (prev cur : dict) : dict :=
  map (fun kv : string * cell =>
         let (c, v) := kv in
         (c, if isna v
             then match get prev c with Some p => p | None => v end
             else v)) cur.

Fixpoint ffill_from (prev : dict) (rs : list (nat * dict)) : list (nat * dict) :=
  match rs with
  | [] => []
  | (i, r) :: rs' => let r' := fill prev r in (i, r') :: ffill_from r' rs'
  end.

(** [df.fillna(method='ffill')] *)
Definition ffill (df : DataFrame) : DataFrame :=
  {| columns := columns df; rows := ffill_from [] (rows df) |}.

Definition complete (r : dict) : bool := forallb (fun kv => notna (snd kv)) r.

(** [df.dropna()]: drop every row that has a missing cell. *)
Definition dropna (df : DataFrame) : DataFrame :=
  {| columns := columns df;
     rows := filter (fun ir => complete (snd ir)) (rows df) |}.

(** [df[df[c] == s]], for a column [c] of the frame. *)
Definition where_eq (df : DataFrame) (c s : string) : DataFrame :=
  {| columns := columns df;
     rows := filter (fun ir => match get (snd ir) c with
                               | Some v => eq_str v s
                               | None => false
                               end) (rows df) |}.

Definition without (c : string) (d : dict) : dict :=
  filter (fun kv => negb (String.eqb (fst kv) c)) d.

(** [df.drop(c, axis=1)] *)
Definition drop (df : DataFrame) (c : string) : DataFrame :=
  {| columns := filter (fun k => negb (String.eqb k c)) (columns df);
     rows := map (fun ir => (fst ir, without c (snd ir))) (rows df) |}.

(** [df[c] = v] with a scalar [v]. *)
Definition assign (df : DataFrame) (c : string) (v : cell) : DataFrame :=
  {| columns := if mem c (columns df) then columns df else columns df ++ [c];
     rows := map (fun ir => (fst ir, setitem (snd ir) c v)) (rows df) |}.

(** [df.empty] *)
Definition empty (df : DataFrame) : bool :=
  match rows df, columns df with
  | [], _ => true
  | _, [] => true
  | _, _ => false
  end.

(** [pd.concat(dfs, ignore_index=True)] on a non-empty list, as [main]
    calls it: outer join of the columns in order of first appearance, rows
    in the order of the frames, fresh index. *)
Definition concat (dfs : list DataFrame) : DataFrame :=
  let cols := union_all [] (map columns dfs) in
  let rs := flat_map (fun df => map (fun ir => reindex cols (snd ir)) (rows df)) dfs in
  {| columns := cols; rows := combine (seq 0 (List.length rs)) rs |}.

(** [df.head()]: the first five rows. *)
Definition head (df : DataFrame) : DataFrame :=
  {| columns := columns df; rows := firstn 5 (rows df) |}.

(** What [to_csv(path, index=False)] writes: the header line and one
    record per row. *)
Record csv : Type := mkCsv {
  header : list string;
  records : list dict
}.

Definition to_csv (df : DataFrame) : csv :=
  {| header := columns df; records := map snd (rows df) |}.

End Pd.

(** ** Output and exceptions *)

Module IO.

(** What the program prints, one constructor for each [print] statement
    of the source, in the order of its lines: 10, 15, 47, 71, 74, then the
    six prints of lines 90 to 95 (the rule of "=" after a blank line, the
    two counts, the name of the output file, the rule again, and the frame
    [master_df.head()]), and line 97. *)
Inductive line : Type :=
| Parsing (filename : string)
| ErrorOpening (filename : string)
| NoUsableData (filename : string)
| NoTlogFiles
| Found (n : nat)
| RuleAfterBlank
| DoneProcessed (flights : nat)
| TotalDataPoints (points : nat)
| SavedTo (output_file : string)
| Rule
| Table (df : Pd.DataFrame)
| CouldNotProcess.

Inductive result (A : Type) : Type :=
| Returned (a : A)
| Raised.

Arguments Returned {A} a.
Arguments Raised {A}.

(** What was printed, and how the computation ended. *)
Definition io (A : Type) : Type := (list line * result A)%type.

Definition ret {A : Type} (a : A) : io A := ([], Returned a).

Definition print (l : line) : io unit := ([l], Returned tt).

Definition lift {A : Type} (r : result A) : io A := ([], r).

Definition bind {A B : Type} (c : io A) (k : A -> io B) : io B :=
  match c with
  | (out, Returned a) => let (out', r) := k a in (out ++ out', r)
  | (out, Raised) => (out, Raised)
  end.

Definition stdout {A : Type} (c : io A) : list line := fst c.
Definition outcome {A : Type} (c : io A) : result A := snd c.

End IO.

Declare Scope io_scope.
Delimit Scope io_scope with io.
Notation "x <- c ;; k" := (IO.bind c (fun x => k))
  (at level 61, c at next level, right associativity) : io_scope.
Notation "c ;; k" := (IO.bind c (fun _ => k))
  (at level 61, right associativity) : io_scope.

(** ** The MAVLink reader *)

Module Mav.
Import Py.

(** The three message types [recv_match] is asked for, with the fields
    the program reads.  Integer fields are integers on the wire, the
    others are floats and may hold any float, [nan] included. *)
Inductive message : Type :=
| SYS_STATUS (_timestamp : float) (voltage_battery current_battery battery_remaining : Z)
| VFR_HUD (_timestamp : float) (throttle : Z) (alt groundspeed : float)
| ATTITUDE (_timestamp : float) (roll pitch : float).

Definition _timestamp (msg : message) : float :=
  match msg with
  | SYS_STATUS t _ _ _ => t
  | VFR_HUD t _ _ _ => t
  | ATTITUDE t _ _ => t
  end.

Definition get_type (msg : message) : string :=
  match msg with
  | SYS_STATUS _ _ _ _ => "SYS_STATUS"
  | VFR_HUD _ _ _ _ => "VFR_HUD"
  | ATTITUDE _ _ _ => "ATTITUDE"
  end.

(** One call of [mlog.recv_match(...)] before the end of the log: a
    message, or an exception raised by the decoder. *)
Inductive recv : Type :=
| Msg (msg : message)
| Raise.

(** What [mavutil.mavlink_connection(filename)] finds: it raises, or it
    gives a handle whose successive [recv_match] calls yield [stream] and
    then [None]. *)
Inductive tlog : Type :=
| OpenFails
| Opened (stream : list recv).

End Mav.

(** ** TLogs/TlogToCSV.py *)

Module TlogToCSV.
Import Py IO Pd Mav.
Local Open Scope io_scope.

(** The files on disk, as [mavutil.mavlink_connection] sees them. *)
Definition disk : Type := string -> tlog.

(** The body of the read loop, lines 27 to 42: the base row, then the
    features of the message's type. *)
Definition make_row (msg : message) : dict :=
  let row := [("timestamp", Num (_timestamp msg)); ("type", Str (get_type msg))] in
  match msg with
  | SYS_STATUS _ voltage_battery current_battery battery_remaining =>
      let row := setitem row "voltage" (Num (float_of_int voltage_battery / 1000)) in
      let row := setitem row "current" (Num (float_of_int current_battery / 100)) in
      setitem row "battery_remaining" (Num (float_of_int battery_remaining))
  | VFR_HUD _ throttle alt groundspeed =>
      let row := setitem row "throttle" (Num (float_of_int throttle)) in
      let row := setitem row "altitude" (Num alt) in
      setitem row "groundspeed" (Num groundspeed)
  | ATTITUDE _ roll pitch =>
      let row := setitem row "roll" (Num roll) in
      setitem row "pitch" (Num pitch)
  end.

(** [while True: msg = mlog.recv_match(...); if not msg: break; ...;
    data_rows.append(row)].  The loop is outside the [try] of the open,
    so an exception of [recv_match] leaves the function. *)
Fixpoint read_loop (stream : list recv) (data_rows : list dict) : result (list dict) :=
  match stream with
  | [] => Returned data_rows
  | Raise :: _ => Raised
  | Msg msg :: rest => read_loop rest (data_rows ++ [make_row msg])
  end.

(** Lines 51 to 62, on a non-empty [data_rows]. *)
Definition align (filename : string) (data_rows : list dict) : DataFrame :=
  let df := from_records data_rows in
  let df := dropna (ffill df) in
  let df := drop (where_eq df "type" "VFR_HUD") "type" in
  assign df "source_file" (Str (basename filename)).

Definition process_single_tlog (d : disk) (filename : string) : io (option DataFrame) :=
  print (Parsing filename) ;;
  match d filename with
  | OpenFails =>
      print (ErrorOpening filename) ;;
      ret None
  | Opened stream =>
      data_rows <- lift (read_loop stream []) ;;
      match data_rows with
      | [] =>
          print (NoUsableData filename) ;;
          ret None
      | _ :: _ => ret (Some (align filename data_rows))
      end
  end.

(** The [for log_file in tlog_files] loop of [main]. *)
Fixpoint batch (d : disk) (tlog_files : list string) (all_flights : list DataFrame)
  : io (list DataFrame) :=
  match tlog_files with
  | [] => ret all_flights
  | log_file :: rest =>
      flight_df <- process_single_tlog d log_file ;;
      match flight_df with
      | Some df =>
          if negb (empty df)
          then batch d rest (all_flights ++ [df])
          else batch d rest all_flights
      | None => batch d rest all_flights
      end
  end.

Definition output_file : string := "master_drone_dataset.csv".

(** [main], given what [glob.glob("*.tlog")] returned.  The value is what
    was written to master_drone_dataset.csv, if anything was. *)
Definition main (d : disk) (tlog_files : list string) : io (option csv) :=
  match tlog_files with
  | [] =>
      print NoTlogFiles ;;
      ret None
  | _ :: _ =>
      print (Found (List.length tlog_files)) ;;
      all_flights <- batch d tlog_files [] ;;
      match all_flights with
      | _ :: _ =>
          let master_df := concat all_flights in
          let written := to_csv master_df in
          print RuleAfterBlank ;;
          print (DoneProcessed (List.length all_flights)) ;;
          print (TotalDataPoints (List.length (rows master_df))) ;;
          print (SavedTo output_file) ;;
          print Rule ;;
          print (Table (head master_df)) ;;
          ret (Some written)
      | [] =>
          print CouldNotProcess ;;
          ret None
      end
  end.

(** *** Vocabulary of the specification and of the proofs *)

Definition anchor : string := "VFR_HUD".

Definition tracked_fields : list string :=
  ["voltage"; "current"; "battery_remaining"; "throttle"; "altitude";
   "groundspeed"; "roll"; "pitch"].

Definition schema : list string :=
  "timestamp" :: tracked_fields ++ ["source_file"].

(** The value a message carries for a field, when it sets the field. *)
Definition carried (msg : message) (c : string) : option cell :=
  get (make_row msg) c.

(** The value carried by the most recent message of [msgs], in stream
    order, that sets [c]. *)
Fixpoint most_recent (c : string) (msgs : list message) : option cell :=
  match msgs with
  | [] => None
  | msg :: rest =>
      match most_recent c rest with
      | Some v => Some v
      | None => carried msg c
      end
  end.

(** The same, among the messages that set [c] to a value pandas does
    not count as missing. *)
Fixpoint most_recent_valid (c : string) (msgs : list message) : option cell :=
  match msgs with
  | [] => None
  | msg :: rest =>
      match most_recent_valid c rest with
      | Some v => Some v
      | None =>
          match carried msg c with
          | Some v => if isna v then None else Some v
          | None => None
          end
      end
  end.

(** The last valid cell of column [c] in the records [ds]. *)
Fixpoint last_valid (c : string) (ds : list dict) : option cell :=
  match ds with
  | [] => None
  | d :: rest =>
      match last_valid c rest with
      | Some v => Some v
      | None =>
          match get d c with
          | Some v => if isna v then None else Some v
          | None => None
          end
      end
  end.

(** [prev] holds, for every column of [cols], the last valid cell of the
    records [ds], and nothing valid where there is none. *)
Definition tracks (cols : list string) (prev : dict) (ds : list dict) : Prop :=
  forall c, In c cols ->
    match last_valid c ds with
    | Some w => get prev c = Some w
    | None => forall p, get prev c = Some p -> isna p = true
    end.

(** The frame after the forward fill: its row [j] is the state tracked
    after message [j] of the log. *)
Definition filled (msgs : list message) : DataFrame :=
  ffill (from_records (map make_row msgs)).

(** The rows a file contributes to the batch, in their order. *)
Definition rows_of_file (d : disk) (filename : string) : list dict :=
  match outcome (process_single_tlog d filename) with
  | Returned (Some df) => map snd (rows df)
  | _ => []
  end.

(** The frames [main] keeps in [all_flights]. *)
Definition kept (d : disk) (filename : string) : list DataFrame :=
  match outcome (process_single_tlog d filename) with
  | Returned (Some df) => if negb (empty df) then [df] else []
  | _ => []
  end.

(** Whether processing a file ends in an exception. *)
Definition raises (d : disk) (filename : string) : bool :=
  match outcome (process_single_tlog d filename) with
  | Raised => true
  | Returned _ => false
  end.

(** The fields a message of type [t] sets, and the order in which the
    message types of a log first arrive. *)
Definition fields_of (t : string) : list string :=
  if String.eqb t "SYS_STATUS" then ["voltage"; "current"; "battery_remaining"]
  else if String.eqb t "VFR_HUD" then ["throttle"; "altitude"; "groundspeed"]
  else if String.eqb t "ATTITUDE" then ["roll"; "pitch"]
  else [].

Definition arrival (msgs : list message) : list string :=
  union [] (map get_type msgs).

(** The columns of the frame built from the rows of a log whose message
    types first arrive in the order [seen]. *)
Definition layout (seen : list string) : list string :=
  "timestamp" :: "type" :: flat_map fields_of seen.

(** The messages of a file that opens, whether it contributes rows to the
    batch, and the columns of its aligned frame by arrival order. *)
Definition messages_of (d : disk) (filename : string) : list message :=
  match d filename with
  | Opened stream =>
      flat_map (fun e => match e with Msg msg => [msg] | Raise => [] end) stream
  | OpenFails => []
  end.

Definition contributes (d : disk) (filename : string) : bool :=
  match rows_of_file d filename with
  | [] => false
  | _ :: _ => true
  end.

Definition file_columns (d : disk) (filename : string) : list string :=
  "timestamp" :: flat_map fields_of (arrival (messages_of d filename))
              ++ ["source_file"].

(** Ranges of the integer fields of SYS_STATUS and VFR_HUD on the wire:
    voltage_battery and throttle are uint16_t, current_battery is int16_t,
    battery_remaining is int8_t. *)
Definition uint16 (n : Z) : Prop := (0 <= n < 65536)%Z.
Definition int16 (n : Z) : Prop := (-32768 <= n < 32768)%Z.
Definition int8 (n : Z) : Prop := (-128 <= n < 128)%Z.

(** [p] holds on the [n] integers from [lo] upwards. *)
Fixpoint all_from (p : Z -> bool) (lo : Z) (n : nat) : bool :=
  match n with
  | O => true
  | S n' => p lo && all_from p (lo + 1) n'
  end.

(** The six lines [main] prints after it has written the frames
    [all_flights]. *)
Definition summary (all_flights : list DataFrame) : list line :=
  [RuleAfterBlank;
   DoneProcessed (List.length all_flights);
   TotalDataPoints (List.length (rows (concat all_flights)));
   SavedTo output_file;
   Rule;
   Table (head (concat all_flights))].



(** *** Sample logs *)

Definition sys0 : message := SYS_STATUS 1 12400 150 87.
Definition att0 : message := ATTITUDE 2 0.5 0.25.
Definition att_nan : message := ATTITUDE 3 nan 0.75.
Definition hud0 : message := VFR_HUD 4 50 10 3.
Definition hud1 : message := VFR_HUD 5 60 11 4.

Definition a_log : list message := [sys0; att0; hud0; hud1].
Definition b_log : list message := [hud0; sys0; att0; hud1].
Definition c_log : list message := [sys0; hud0; att0; hud1].
Definition nan_log : list message := [sys0; att0; att_nan; hud0].
Definition old_log : list message := [sys0; att0; hud1].

Definition sample_disk : disk := fun filename =>
  if String.eqb filename "a.tlog" then Opened (map Msg a_log)
  else if String.eqb filename "logs/b.tlog" then Opened (map Msg b_log)
  else if String.eqb filename "c.tlog" then Opened (map Msg c_log)
  else if String.eqb filename "nan.tlog" then Opened (map Msg nan_log)
  else if String.eqb filename "old/a.tlog" then Opened (map Msg old_log)
  else if String.eqb filename "hud.tlog" then Opened [Msg hud0]
  else if String.eqb filename "cut.tlog" then Opened [Msg sys0; Msg att0; Msg hud0; Raise]
  else if String.eqb filename "empty.tlog" then Opened []
  else OpenFails.

(** The frames of the sample logs, and the row of one anchor in each. *)
Definition a_frame : DataFrame := align "a.tlog" (map make_row a_log).
Definition b_frame : DataFrame := align "logs/b.tlog" (map make_row b_log).
Definition nan_frame : DataFrame := align "nan.tlog" (map make_row nan_log).
Definition old_a_frame : DataFrame := align "old/a.tlog" (map make_row old_log).

Definition a_row : dict :=
  Eval vm_compute in nth 0 (map snd (rows a_frame)) [].
Definition b_row : dict :=
  Eval vm_compute in nth 0 (map snd (rows b_frame)) [].
Definition nan_row : dict :=
  Eval vm_compute in nth 0 (map snd (rows nan_frame)) [].
Definition old_a_row : dict :=
  Eval vm_compute in nth 0 (map snd (rows old_a_frame)) [].

(** The tracked state of nan.tlog after its second and third message. *)
Definition nan_state1 : dict :=
  Eval vm_compute in nth 1 (map snd (rows (filled nan_log))) [].
Definition nan_state2 : dict :=
  Eval vm_compute in nth 2 (map snd (rows (filled nan_log))) [].

(** A log with battery and attitude messages but no anchor message. *)
Definition idle_log : list message := [sys0; att0; sys0].

Definition idle_disk : disk := fun filename =>
  if String.eqb filename "idle.tlog" then Opened (map Msg idle_log)
  else sample_disk filename.

End TlogToCSV.

Import Py IO Pd Mav TlogToCSV.

(** ** Dictionaries and column labels *)

Section DictFacts.

Lemma mem_In (k : string) (ks : list string) : mem k ks = true <-> In k ks.
Proof.
  unfold mem. rewrite existsb_exists. split.
  - intros [x [Hx Hk]]. apply String.eqb_eq in Hk. now subst.
  - intros H. exists k. split; [assumption | apply String.eqb_refl].
Qed.

Lemma mem_not_In (k : string) (ks : list string) : mem k ks = false <-> ~ In k ks.
Proof.
  rewrite <- mem_In. destruct (mem k ks); split; congruence.
Qed.

Lemma isna_NaN : isna NaN = true.
Proof. reflexivity. Qed.

Lemma get_None (d : dict) (k : string) : ~ In k (keys d) -> get d k = None.
Proof.
  induction d as [|[k' v] d IH]; simpl; intros H; [reflexivity|].
  destruct (String.eqb_spec k' k) as [->|Hne].
  - exfalso. apply H. now left.
  - apply IH. intros Hin. apply H. now right.
Qed.


Lemma get_In (d : dict) (k : string) :
  In k (keys d) -> exists v, get d k = Some v.
Proof.
  induction d as [|[k' v'] d IH]; simpl; [tauto|].
  intros [->|Hin].
  - rewrite String.eqb_refl. now exists v'.
  - destruct (String.eqb k' k); [now exists v' | now apply IH].
Qed.

Lemma get_setitem (d : dict) (k k' : string) (v : cell) :
  get (setitem d k v) k' = if String.eqb k k' then Some v else get d k'.
Proof.
  induction d as [|[k0 v0] d IH]; simpl.
  - reflexivity.
  - destruct (String.eqb_spec k0 k) as [->|Hne]; simpl.
    + destruct (String.eqb k k'); reflexivity.
    + rewrite IH. destruct (String.eqb_spec k0 k') as [->|Hne'].
      * destruct (String.eqb_spec k k') as [->|_]; [congruence | reflexivity].
      * reflexivity.
Qed.

Lemma keys_setitem (d : dict) (k : string) (v : cell) :
  keys (setitem d k v) = if mem k (keys d) then keys d else keys d ++ [k].
Proof.
  induction d as [|[k0 v0] d IH]; simpl; [reflexivity|].
  rewrite (String.eqb_sym k k0).
  destruct (String.eqb_spec k0 k) as [->|Hne]; simpl; [reflexivity|].
  unfold keys in *. rewrite IH.
  unfold mem. destruct (existsb (String.eqb k) (map fst d)); reflexivity.
Qed.

Lemma get_without (c k : string) (d : dict) :
  get (without c d) k = if String.eqb k c then None else get d k.
Proof.
  induction d as [|[k0 v0] d IH]; simpl.
  - now destruct (String.eqb k c).
  - destruct (String.eqb_spec k0 c) as [->|Hne]; simpl.
    + rewrite IH. rewrite (String.eqb_sym c k).
      now destruct (String.eqb k c).
    + rewrite IH. destruct (String.eqb_spec k0 k) as [->|Hne'].
      * destruct (String.eqb_spec k c) as [->|_]; [congruence | reflexivity].
      * reflexivity.
Qed.

Lemma keys_reindex (cols : list string) (d : dict) : keys (reindex cols d) = cols.
Proof.
  unfold keys, reindex. rewrite map_map. simpl. apply map_id.
Qed.

Lemma get_reindex (cols : list string) (d : dict) (c : string) :
  In c cols ->
  get (reindex cols d) c = Some (match get d c with Some v => v | None => NaN end).
Proof.
  induction cols as [|k cols IH]; simpl; [tauto|].
  intros H. destruct (String.eqb_spec k c) as [->|Hne]; [reflexivity|].
  apply IH. destruct H; [contradiction | assumption].
Qed.

Lemma keys_fill (prev cur : dict) : keys (fill prev cur) = keys cur.
Proof.
  unfold keys, fill. rewrite map_map. apply map_ext. now intros [c v].
Qed.

Lemma get_fill (prev cur : dict) (c : string) :
  get (fill prev cur) c =
  match get cur c with
  | Some v => Some (if isna v
                    then match get prev c with Some p => p | None => v end
                    else v)
  | None => None
  end.
Proof.
  induction cur as [|[k v] cur IH]; simpl; [reflexivity|].
  destruct (String.eqb_spec k c) as [->|Hne]; [reflexivity | exact IH].
Qed.

Lemma complete_get (r : dict) (c : string) (v : cell) :
  complete r = true -> get r c = Some v -> isna v = false.
Proof.
  unfold complete. induction r as [|[k w] r IH]; simpl; [discriminate|].
  intros H. apply andb_true_iff in H. destruct H as [Hw Hr].
  destruct (String.eqb k c).
  - intros E. injection E as <-. unfold notna in Hw. now destruct (isna w).
  - now apply IH.
Qed.

(** *** Union of labels *)

Lemma In_union (acc ks : list string) (c : string) :
  In c (union acc ks) <-> In c acc \/ In c ks.
Proof.
  revert acc. induction ks as [|k ks IH]; intros acc; simpl.
  - tauto.
  - rewrite IH. destruct (mem k acc) eqn:E.
    + apply mem_In in E. split; [tauto|]. intros [H|[->|H]]; tauto.
    + rewrite in_app_iff. simpl. tauto.
Qed.

Lemma NoDup_union (acc ks : list string) : NoDup acc -> NoDup (union acc ks).
Proof.
  revert acc. induction ks as [|k ks IH]; intros acc H; simpl; [assumption|].
  apply IH. destruct (mem k acc) eqn:E; [assumption|].
  apply mem_not_In in E.
  apply NoDup_app; [assumption | repeat constructor; simpl; tauto |].
  intros x Hx [<-|[]]. contradiction.
Qed.

Lemma union_incl (acc ks : list string) : incl ks acc -> union acc ks = acc.
Proof.
  revert acc. induction ks as [|k ks IH]; intros acc H; simpl; [reflexivity|].
  assert (E : mem k acc = true) by (apply mem_In, H; now left).
  rewrite E. apply IH. intros x Hx. apply H. now right.
Qed.

Lemma union_fresh (acc ks : list string) :
  NoDup ks -> (forall c, In c ks -> ~ In c acc) -> union acc ks = acc ++ ks.
Proof.
  revert acc. induction ks as [|k ks IH]; intros acc Hnd Hfresh; simpl.
  - now rewrite app_nil_r.
  - assert (E : mem k acc = false) by (apply mem_not_In, Hfresh; now left).
    rewrite E. inversion Hnd as [|? ? Hk Hnd']; subst.
    rewrite IH; [now rewrite <- app_assoc | assumption |].
    intros c Hc Hin. apply in_app_iff in Hin. destruct Hin as [Hin|[<-|[]]].
    + apply (Hfresh c); [now right | assumption].
    + contradiction.
Qed.

Lemma In_union_all (acc : list string) (kss : list (list string)) (c : string) :
  In c (union_all acc kss) <-> In c acc \/ exists ks, In ks kss /\ In c ks.
Proof.
  unfold union_all. revert acc. induction kss as [|ks kss IH]; intros acc; simpl.
  - split; [tauto|]. intros [H|[ks [[] _]]]. assumption.
  - rewrite IH, In_union. split.
    + intros [[H|H]|[ks' [H1 H2]]]; [tauto | right; exists ks; tauto |].
      right. exists ks'. tauto.
    + intros [H|[ks' [[<-|H1] H2]]]; [tauto | tauto |].
      right. exists ks'. tauto.
Qed.

Lemma NoDup_union_all (acc : list string) (kss : list (list string)) :
  NoDup acc -> NoDup (union_all acc kss).
Proof.
  unfold union_all. revert acc. induction kss as [|ks kss IH]; intros acc H; simpl.
  - assumption.
  - apply IH. now apply NoDup_union.
Qed.

Lemma union_all_incl (acc : list string) (kss : list (list string)) :
  (forall ks, In ks kss -> incl ks acc) -> union_all acc kss = acc.
Proof.
  unfold union_all. induction kss as [|ks kss IH]; intros H; simpl; [reflexivity|].
  rewrite union_incl by (apply H; now left).
  apply IH. intros ks' Hks'. apply H. now right.
Qed.

End DictFacts.

(** ** Forward fill *)

Section ForwardFill.

Lemma last_valid_snoc (c : string) (ds : list dict) (d : dict) :
  last_valid c (ds ++ [d]) =
  match get d c with
  | Some v => if isna v then last_valid c ds else Some v
  | None => last_valid c ds
  end.
Proof.
  induction ds as [|d0 ds IH]; simpl.
  - destruct (get d c) as [v|]; [destruct (isna v)|]; reflexivity.
  - rewrite IH. destruct (get d c) as [v|]; [destruct (isna v)|]; reflexivity.
Qed.

Lemma last_valid_absent (c : string) (ds : list dict) :
  (forall d, In d ds -> ~ In c (keys d)) -> last_valid c ds = None.
Proof.
  induction ds as [|d ds IH]; intros H; simpl; [reflexivity|].
  rewrite IH by (intros d' Hd'; apply H; now right).
  rewrite get_None; [reflexivity | apply H; now left].
Qed.

Lemma tracks_nil (cols : list string) : tracks cols [] [].
Proof. intros c _. simpl. discriminate. Qed.

Lemma fill_tracks (cols : list string) (prev : dict) (ds : list dict) (d : dict) :
  tracks cols prev ds -> tracks cols (fill prev (reindex cols d)) (ds ++ [d]).
Proof.
  intros H c Hc. specialize (H c Hc).
  rewrite last_valid_snoc, get_fill, (get_reindex cols d c Hc).
  destruct (get d c) as [v|].
  - destruct (isna v) eqn:Ev.
    + destruct (last_valid c ds) as [w|].
      * now rewrite H.
      * intros p E. injection E as <-.
        destruct (get prev c) as [q|] eqn:Eq; [now apply H | assumption].
    + reflexivity.
  - rewrite isna_NaN. destruct (last_valid c ds) as [w|].
    + now rewrite H.
    + intros p E. injection E as <-.
      destruct (get prev c) as [q|] eqn:Eq; [now apply H | apply isna_NaN].
Qed.

(** Every row of the filled frame carries the label of its position and
    holds the last valid cells of the records up to that position. *)
Lemma ffill_from_spec (cols : list string) (ds before : list dict) (prev : dict)
      (k i : nat) (r : dict) :
  tracks cols prev before ->
  In (i, r) (ffill_from prev (combine (seq k (List.length ds)) (map (reindex cols) ds))) ->
  exists j, i = k + j /\ j < List.length ds /\ keys r = cols /\
            tracks cols r (before ++ firstn (S j) ds).
Proof.
  revert before prev k. induction ds as [|d ds IH]; intros before prev k Ht Hin.
  - contradiction.
  - simpl in Hin. destruct Hin as [E|Hin].
    + injection E as <- <-. exists 0. repeat split.
      * lia.
      * simpl. lia.
      * now rewrite keys_fill, keys_reindex.
      * simpl. now apply fill_tracks.
    + apply (IH (before ++ [d])) in Hin; [|now apply fill_tracks].
      destruct Hin as [j [-> [Hj [Hk Htr]]]]. exists (S j). repeat split.
      * lia.
      * simpl. lia.
      * assumption.
      * rewrite <- app_assoc in Htr. exact Htr.
Qed.

Lemma ffill_from_labels (prev : dict) (rs : list (nat * dict)) :
  map fst (ffill_from prev rs) = map fst rs.
Proof.
  revert prev. induction rs as [|[i r] rs IH]; intros prev; simpl; [reflexivity|].
  now rewrite IH.
Qed.

(** Each row of the filled frame is the row above it, overwritten by the
    valid cells of the record at that position. *)
Lemma ffill_from_step (prev : dict) (rs : list (nat * dict)) (j : nat)
      (l l' l0 : nat) (r r' raw : dict) :
  nth_error (ffill_from prev rs) j = Some (l, r) ->
  nth_error (ffill_from prev rs) (S j) = Some (l', r') ->
  nth_error rs (S j) = Some (l0, raw) ->
  r' = fill r raw.
Proof.
  revert prev j. induction rs as [|[i0 r0] rs IH]; intros prev j H H' Hraw.
  - destruct j; discriminate.
  - destruct j as [|j].
    + simpl in H. injection H as _ <-. simpl in H', Hraw.
      destruct rs as [|[i1 r1] rs]; [discriminate|].
      simpl in H', Hraw. injection Hraw as _ <-. now injection H' as _ <-.
    + simpl in H, H', Hraw. exact (IH _ j H H' Hraw).
Qed.

Lemma nth_error_records (cols : list string) (ds : list dict) (k j l : nat) (r : dict) :
  nth_error (combine (seq k (List.length ds)) (map (reindex cols) ds)) j = Some (l, r) ->
  exists d0, nth_error ds j = Some d0 /\ r = reindex cols d0.
Proof.
  revert k j. induction ds as [|d0 ds IH]; intros k j H.
  - destruct j; discriminate.
  - destruct j as [|j].
    + simpl in H. injection H as _ <-. now exists d0.
    + simpl in H. exact (IH (S k) j H).
Qed.

Lemma nth_error_ffill_from (prev : dict) (rs : list (nat * dict)) (j : nat) :
  nth_error rs j = None -> nth_error (ffill_from prev rs) j = None.
Proof.
  intros H. apply nth_error_None in H. apply nth_error_None.
  rewrite <- (length_map fst (ffill_from prev rs)), ffill_from_labels, length_map.
  exact H.
Qed.

Lemma In_firstn (A : Type) (n : nat) (l : list A) (x : A) :
  In x (firstn n l) -> In x l.
Proof.
  intros H. rewrite <- (firstn_skipn n l). apply in_or_app. now left.
Qed.

(** A row that survives [dropna] after the fill. *)
Lemma filled_row (ds : list dict) (i : nat) (r : dict) :
  In (i, r) (rows (dropna (ffill (from_records ds)))) ->
  i < List.length ds /\
  keys r = columns (from_records ds) /\
  complete r = true /\
  forall c, get r c = last_valid c (firstn (S i) ds).
Proof.
  unfold dropna, ffill, from_records. cbn [rows columns].
  set (cols := union_all [] (map keys ds)).
  intros H. apply filter_In in H. destruct H as [Hin Hc]. cbn [snd] in Hc.
  apply (ffill_from_spec cols ds [] [] 0 i r (tracks_nil cols)) in Hin.
  destruct Hin as [j [-> [Hj [Hk Htr]]]]. rewrite app_nil_l in Htr.
  replace (0 + j) with j by lia.
  repeat split; try assumption.
  intros c. destruct (in_dec string_dec c cols) as [Hcol|Hcol].
  - specialize (Htr c Hcol).
    destruct (get_In r c) as [v Hv]; [now rewrite Hk|].
    destruct (last_valid c (firstn (S j) ds)) as [w|] eqn:E.
    + exact Htr.
    + exfalso. specialize (Htr v Hv).
      rewrite (complete_get r c v Hc Hv) in Htr. discriminate.
  - rewrite get_None by now rewrite Hk.
    symmetry. apply last_valid_absent. intros d Hd Hin. apply Hcol.
    apply In_union_all. right. exists (keys d). split; [|assumption].
    apply in_map. now apply In_firstn in Hd.
Qed.

End ForwardFill.

(** ** One log file *)

Section SingleLog.

Lemma bind_outcome (A B : Type) (c : io A) (k : A -> io B) :
  outcome (bind c k) =
  match outcome c with
  | Returned a => outcome (k a)
  | Raised => Raised
  end.
Proof.
  destruct c as [out [a|]]; simpl; [|reflexivity].
  now destruct (k a).
Qed.

Lemma bind_stdout (A B : Type) (c : io A) (k : A -> io B) :
  stdout (bind c k) =
  stdout c ++ match outcome c with
              | Returned a => stdout (k a)
              | Raised => []
              end.
Proof.
  destruct c as [out [a|]]; simpl; [|now rewrite app_nil_r].
  now destruct (k a).
Qed.

Lemma read_loop_msgs (msgs : list message) (acc : list dict) :
  read_loop (map Msg msgs) acc = Returned (acc ++ map make_row msgs).
Proof.
  revert acc. induction msgs as [|m msgs IH]; intros acc; simpl.
  - now rewrite app_nil_r.
  - rewrite IH, <- app_assoc. reflexivity.
Qed.

Lemma read_loop_raise (stream : list recv) (acc : list dict) :
  In Raise stream -> read_loop stream acc = Raised.
Proof.
  revert acc. induction stream as [|[m|] stream IH]; intros acc H; simpl.
  - contradiction.
  - apply IH. destruct H as [H|H]; [discriminate | assumption].
  - reflexivity.
Qed.

Lemma read_loop_returned (stream : list recv) (acc ds : list dict) :
  read_loop stream acc = Returned ds ->
  exists msgs, stream = map Msg msgs /\ ds = acc ++ map make_row msgs.
Proof.
  revert acc. induction stream as [|[m|] stream IH]; intros acc H; simpl in H.
  - injection H as <-. exists []. simpl. now rewrite app_nil_r.
  - destruct (IH _ H) as [msgs [-> ->]]. exists (m :: msgs).
    simpl. now rewrite <- app_assoc.
  - discriminate.
Qed.

(** What [process_single_tlog] does, by the content of the file. *)
Lemma process_open_fails (d : disk) (f : string) :
  d f = OpenFails ->
  process_single_tlog d f = ([Parsing f; ErrorOpening f], Returned None).
Proof. unfold process_single_tlog. now intros ->. Qed.

Lemma process_no_message (d : disk) (f : string) :
  d f = Opened [] ->
  process_single_tlog d f = ([Parsing f; NoUsableData f], Returned None).
Proof. unfold process_single_tlog. now intros ->. Qed.

Lemma process_messages (d : disk) (f : string) (m : message) (msgs : list message) :
  d f = Opened (map Msg (m :: msgs)) ->
  process_single_tlog d f =
  ([Parsing f], Returned (Some (align f (map make_row (m :: msgs))))).
Proof.
  unfold process_single_tlog. intros ->.
  rewrite read_loop_msgs. reflexivity.
Qed.

Lemma process_raise (d : disk) (f : string) (stream : list recv) :
  d f = Opened stream -> In Raise stream ->
  process_single_tlog d f = ([Parsing f], Raised).
Proof.
  unfold process_single_tlog. intros -> H.
  now rewrite (read_loop_raise stream [] H).
Qed.

Lemma process_frame (d : disk) (f : string) (df : DataFrame) :
  outcome (process_single_tlog d f) = Returned (Some df) ->
  exists msgs, d f = Opened (map Msg msgs) /\ msgs <> [] /\
               df = align f (map make_row msgs).
Proof.
  unfold process_single_tlog. destruct (d f) as [|stream]; [discriminate|].
  destruct (read_loop stream []) as [ds|] eqn:E; [|discriminate].
  apply read_loop_returned in E. destruct E as [msgs [-> E]]. simpl in E. subst ds.
  destruct msgs as [|m msgs]; simpl; [discriminate|].
  intros H. injection H as <-. exists (m :: msgs). repeat split. discriminate.
Qed.

Lemma process_frame_of (d : disk) (f : string) (msgs : list message) (df : DataFrame) :
  d f = Opened (map Msg msgs) ->
  outcome (process_single_tlog d f) = Returned (Some df) ->
  df = align f (map make_row msgs).
Proof.
  intros Hd H. destruct msgs as [|m msgs].
  - rewrite (process_no_message d f Hd) in H. discriminate.
  - rewrite (process_messages d f m msgs Hd) in H. now injection H.
Qed.


(** *** Rows of the aligned frame *)

Lemma align_row (f : string) (ds : list dict) (i : nat) (r : dict) :
  In (i, r) (rows (align f ds)) ->
  exists r0,
    In (i, r0) (rows (dropna (ffill (from_records ds)))) /\
    (exists v, get r0 "type" = Some v /\ eq_str v anchor = true) /\
    r = setitem (without "type" r0) "source_file" (Str (basename f)).
Proof.
  unfold align, assign, drop, where_eq. cbn [rows columns].
  rewrite map_map. cbn [fst snd]. intros H.
  apply in_map_iff in H. destruct H as [[i0 r0] [E H]]. cbn [fst snd] in E.
  injection E as -> <-. apply filter_In in H. destruct H as [H Ht].
  exists r0. split; [exact H|]. split; [|reflexivity].
  cbn [snd] in Ht. destruct (get r0 "type") as [v|]; [|discriminate].
  now exists v.
Qed.

Lemma align_get (f : string) (ds : list dict) (i : nat) (r : dict) (c : string) :
  In (i, r) (rows (align f ds)) -> c <> "type" -> c <> "source_file" ->
  get r c = last_valid c (firstn (S i) ds).
Proof.
  intros H Ht Hs. apply align_row in H. destruct H as [r0 [H [_ ->]]].
  apply filled_row in H. destruct H as [_ [_ [_ H]]].
  rewrite get_setitem, get_without, <- H.
  destruct (String.eqb_spec "source_file" c) as [E|_]; [congruence|].
  destruct (String.eqb_spec c "type") as [E|_]; [congruence | reflexivity].
Qed.

Lemma align_source_file (f : string) (ds : list dict) (i : nat) (r : dict) :
  In (i, r) (rows (align f ds)) ->
  get r "source_file" = Some (Str (basename f)).
Proof.
  intros H. apply align_row in H. destruct H as [r0 [_ [_ ->]]].
  now rewrite get_setitem.
Qed.

Lemma last_valid_messages (c : string) (msgs : list message) :
  last_valid c (map make_row msgs) = most_recent_valid c msgs.
Proof.
  induction msgs as [|m msgs IH]; simpl; [reflexivity|].
  now rewrite IH.
Qed.

Lemma firstn_snoc (A : Type) (l : list A) (i : nat) :
  i < List.length l ->
  exists x, nth_error l i = Some x /\ firstn (S i) l = firstn i l ++ [x].
Proof.
  revert i. induction l as [|a l IH]; intros i H; simpl in H; [lia|].
  destruct i as [|i].
  - exists a. now split.
  - destruct (IH i) as [x [E1 E2]]; [lia|]. exists x. split; [exact E1|].
    change (firstn (S (S i)) (a :: l)) with (a :: firstn (S i) l).
    now rewrite E2.
Qed.

Lemma make_row_type (m : message) : get (make_row m) "type" = Some (Str (get_type m)).
Proof. now destruct m. Qed.

Lemma make_row_timestamp (m : message) :
  get (make_row m) "timestamp" = Some (Num (_timestamp m)).
Proof. now destruct m. Qed.

(** The message behind a row of the aligned frame is an anchor message,
    and the row carries its timestamp. *)
Lemma align_anchor (f : string) (msgs : list message) (i : nat) (r : dict) :
  In (i, r) (rows (align f (map make_row msgs))) ->
  exists m,
    nth_error msgs i = Some m /\ get_type m = anchor /\
    (PrimFloat.is_nan (_timestamp m) = false ->
     get r "timestamp" = Some (Num (_timestamp m))).
Proof.
  intros H. pose proof (align_get f _ i r "timestamp" H) as Hts.
  apply align_row in H. destruct H as [r0 [H [[v [Hv Ha]] _]]].
  apply filled_row in H. destruct H as [Hi [_ [_ Hget]]].
  rewrite length_map in Hi.
  destruct (firstn_snoc _ msgs i Hi) as [m [Hn Hf]].
  rewrite Hget, firstn_map, Hf, map_app in Hv. simpl in Hv.
  rewrite last_valid_snoc, make_row_type in Hv. simpl in Hv.
  injection Hv as <-. exists m. split; [exact Hn|]. split.
  - simpl in Ha. now apply String.eqb_eq in Ha.
  - intros Hnan. rewrite Hts by discriminate.
    rewrite firstn_map, Hf, map_app. simpl.
    rewrite last_valid_snoc, make_row_timestamp. simpl. now rewrite Hnan.
Qed.

(** *** Index labels *)

Lemma seq_sorted (k n : nat) : StronglySorted lt (seq k n).
Proof.
  revert k. induction n as [|n IH]; intros k; simpl; constructor.
  - apply IH.
  - apply Forall_forall. intros x Hx. apply in_seq in Hx. lia.
Qed.

Lemma labels_combine (A : Type) (l : list nat) (xs : list A) :
  List.length l = List.length xs -> map fst (combine l xs) = l.
Proof.
  revert xs. induction l as [|a l IH]; intros [|x xs] H; simpl in *;
    try reflexivity; try discriminate.
  f_equal. apply IH. lia.
Qed.

Lemma cells_combine (A : Type) (l : list nat) (xs : list A) :
  List.length l = List.length xs -> map snd (combine l xs) = xs.
Proof.
  revert xs. induction l as [|a l IH]; intros [|x xs] H; simpl in *;
    try reflexivity; try discriminate.
  f_equal. apply IH. lia.
Qed.

Lemma filter_sorted (A : Type) (p : nat * A -> bool) (l : list (nat * A)) :
  StronglySorted lt (map fst l) -> StronglySorted lt (map fst (filter p l)).
Proof.
  induction l as [|a l IH]; simpl; intros H; [constructor|].
  inversion H as [|? ? Hs Hf]; subst.
  destruct (p a); simpl; [|now apply IH].
  constructor; [now apply IH|].
  rewrite Forall_forall in *. intros x Hx. apply Hf.
  apply in_map_iff in Hx. destruct Hx as [y [<- Hy]].
  apply filter_In in Hy. apply in_map. tauto.
Qed.

Lemma align_labels (f : string) (ds : list dict) :
  StronglySorted lt (map fst (rows (align f ds))).
Proof.
  unfold align, assign, drop, where_eq, dropna, ffill, from_records.
  cbn [rows columns]. rewrite !map_map. cbn [fst].
  do 2 apply filter_sorted.
  rewrite ffill_from_labels, labels_combine by now rewrite length_seq, length_map.
  apply seq_sorted.
Qed.

End SingleLog.

(** ** The batch *)

Section Batch.

Variable d : disk.

Lemma batch_cons (f : string) (rest : list string) (acc : list DataFrame) :
  batch d (f :: rest) acc =
  bind (process_single_tlog d f)
       (fun flight_df =>
          batch d rest
                (acc ++ match flight_df with
                        | Some df => if negb (empty df) then [df] else []
                        | None => []
                        end)).
Proof.
  cbn [batch]. unfold bind.
  destruct (process_single_tlog d f) as [out [[df|]|]]; try reflexivity.
  - destruct (negb (empty df)); now rewrite ?app_nil_r.
  - now rewrite app_nil_r.
Qed.

Lemma batch_outcome (files : list string) (acc : list DataFrame) :
  outcome (batch d files acc) =
  if existsb (raises d) files then Raised
  else Returned (acc ++ flat_map (kept d) files).
Proof.
  revert acc. induction files as [|f files IH]; intros acc.
  - simpl. now rewrite app_nil_r.
  - rewrite batch_cons, bind_outcome. cbn [existsb flat_map].
    unfold raises at 1, kept at 1.
    destruct (outcome (process_single_tlog d f)) as [r|]; [|reflexivity].
    rewrite IH. cbn [orb]. destruct (existsb (raises d) files); [reflexivity|].
    now rewrite <- app_assoc.
Qed.

Lemma batch_stdout_acc (files : list string) (acc acc' : list DataFrame) :
  stdout (batch d files acc) = stdout (batch d files acc').
Proof.
  revert acc acc'. induction files as [|f files IH]; intros acc acc'; [reflexivity|].
  rewrite !batch_cons, !bind_stdout. f_equal.
  destruct (outcome (process_single_tlog d f)) as [r|]; [apply IH | reflexivity].
Qed.

Lemma batch_stdout_app (pre rest : list string) (acc : list DataFrame) :
  existsb (raises d) pre = false ->
  stdout (batch d (pre ++ rest) acc) =
  flat_map (fun f => stdout (process_single_tlog d f)) pre ++ stdout (batch d rest acc).
Proof.
  revert acc. induction pre as [|f pre IH]; intros acc H; [reflexivity|].
  cbn [app]. rewrite batch_cons, bind_stdout. cbn [existsb flat_map] in *.
  apply orb_false_iff in H. destruct H as [Hf H]. unfold raises in Hf.
  destruct (outcome (process_single_tlog d f)) as [r|]; [|discriminate].
  rewrite IH by assumption. rewrite <- app_assoc. do 2 f_equal.
  apply batch_stdout_acc.
Qed.

Lemma batch_stdout_head (f : string) (rest : list string) (acc : list DataFrame)
      (l : line) :
  In l (stdout (process_single_tlog d f)) -> In l (stdout (batch d (f :: rest) acc)).
Proof.
  intros H. rewrite batch_cons, bind_stdout. apply in_or_app. now left.
Qed.

Lemma batch_stdout_raise (pre post : list string) (f : string) (acc : list DataFrame) :
  existsb (raises d) pre = false -> raises d f = true ->
  stdout (batch d (pre ++ f :: post) acc) =
  flat_map (fun g => stdout (process_single_tlog d g)) pre ++
  stdout (process_single_tlog d f).
Proof.
  intros Hpre Hf. rewrite batch_stdout_app by assumption. f_equal.
  rewrite batch_cons, bind_stdout. unfold raises in Hf.
  destruct (outcome (process_single_tlog d f)); [discriminate|].
  apply app_nil_r.
Qed.

Lemma print_outcome (A : Type) (l : line) (k : io A) :
  outcome (bind (print l) (fun _ => k)) = outcome k.
Proof. now rewrite bind_outcome. Qed.

Lemma print_stdout (A : Type) (l : line) (k : io A) :
  stdout (bind (print l) (fun _ => k)) = l :: stdout k.
Proof. now rewrite bind_stdout. Qed.

Lemma main_outcome (files : list string) :
  outcome (main d files) =
  match outcome (batch d files []) with
  | Returned (df :: dfs) => Returned (Some (to_csv (concat (df :: dfs))))
  | Returned [] => Returned None
  | Raised => Raised
  end.
Proof.
  destruct files as [|f files]; [reflexivity|].
  unfold main. rewrite print_outcome, bind_outcome.
  destruct (outcome (batch d (f :: files) [])) as [[|df dfs]|]; reflexivity.
Qed.

Lemma main_stdout (files : list string) :
  files <> [] ->
  stdout (main d files) =
  Found (List.length files) ::
  stdout (batch d files []) ++
  match outcome (batch d files []) with
  | Returned (df :: dfs) => summary (df :: dfs)
  | Returned [] => [CouldNotProcess]
  | Raised => []
  end.
Proof.
  destruct files as [|f files]; [congruence|]. intros _.
  unfold main. rewrite print_stdout, bind_stdout.
  destruct (outcome (batch d (f :: files) [])) as [[|df dfs]|]; reflexivity.
Qed.

Lemma main_written (files : list string) (out : csv) :
  outcome (main d files) = Returned (Some out) ->
  existsb (raises d) files = false /\
  flat_map (kept d) files <> [] /\
  out = to_csv (concat (flat_map (kept d) files)).
Proof.
  rewrite main_outcome, batch_outcome.
  destruct (existsb (raises d) files); [discriminate|]. cbn [app].
  destruct (flat_map (kept d) files) as [|df dfs]; [discriminate|].
  intros H. injection H as <-. repeat split. discriminate.
Qed.

(** *** Rows of the written table *)

Lemma concat_records (dfs : list DataFrame) :
  records (to_csv (concat dfs)) =
  flat_map (fun df => map (reindex (header (to_csv (concat dfs)))) (map snd (rows df))) dfs.
Proof.
  unfold to_csv, concat. cbn [records header rows columns].
  rewrite cells_combine by now rewrite length_seq.
  apply flat_map_ext. intros df. now rewrite map_map.
Qed.

Lemma align_has_source_file (f : string) (ds : list dict) :
  In "source_file" (columns (align f ds)).
Proof.
  unfold align, assign. cbn [columns].
  match goal with |- context [mem ?c ?l] => destruct (mem c l) eqn:E end.
  - now apply mem_In.
  - apply in_or_app. right. now left.
Qed.

Lemma align_empty (f : string) (ds : list dict) :
  empty (align f ds) = true -> rows (align f ds) = [].
Proof.
  unfold empty. pose proof (align_has_source_file f ds) as H.
  destruct (rows (align f ds)); [reflexivity|].
  destruct (columns (align f ds)); [contradiction | discriminate].
Qed.

Lemma kept_rows (cols : list string) (f : string) :
  flat_map (fun df => map (reindex cols) (map snd (rows df))) (kept d f) =
  map (reindex cols) (rows_of_file d f).
Proof.
  unfold kept, rows_of_file.
  destruct (outcome (process_single_tlog d f)) as [[df|]|] eqn:E; try reflexivity.
  destruct (empty df) eqn:Ee; simpl; [|now rewrite app_nil_r].
  apply process_frame in E. destruct E as [msgs [_ [_ ->]]].
  now rewrite (align_empty _ _ Ee).
Qed.

Lemma batch_records (cols : list string) (files : list string) :
  flat_map (fun df => map (reindex cols) (map snd (rows df))) (flat_map (kept d) files) =
  flat_map (fun f => map (reindex cols) (rows_of_file d f)) files.
Proof.
  induction files as [|f files IH]; [reflexivity|].
  cbn [flat_map]. now rewrite flat_map_app, kept_rows, IH.
Qed.

Lemma kept_of_row (f : string) (r : dict) :
  In r (rows_of_file d f) ->
  exists df i, kept d f = [df] /\ In (i, r) (rows df) /\
               outcome (process_single_tlog d f) = Returned (Some df).
Proof.
  unfold kept, rows_of_file.
  destruct (outcome (process_single_tlog d f)) as [[df|]|] eqn:E; try contradiction.
  intros H. apply in_map_iff in H. destruct H as [[i r'] [Er H]]. cbn [snd] in Er.
  subst r'. exists df, i. repeat split; try assumption.
  apply process_frame in E. destruct E as [msgs [_ [_ ->]]].
  destruct (empty (align f (map make_row msgs))) eqn:Ee; [|reflexivity].
  rewrite (align_empty _ _ Ee) in H. contradiction.
Qed.

Lemma header_covers (files : list string) (f : string) (df : DataFrame) (c : string) :
  In f files -> kept d f = [df] -> In c (columns df) ->
  In c (header (to_csv (concat (flat_map (kept d) files)))).
Proof.
  intros Hf Hk Hc. unfold to_csv, concat. cbn [header columns].
  apply In_union_all. right. exists (columns df). split; [|assumption].
  apply in_map. apply in_flat_map. exists f. split; [assumption|].
  rewrite Hk. now left.
Qed.

Lemma main_records (files : list string) (out : csv) :
  outcome (main d files) = Returned (Some out) ->
  records out =
  flat_map (fun f => map (reindex (header out)) (rows_of_file d f)) files.
Proof.
  intros H. apply main_written in H. destruct H as [_ [_ ->]].
  rewrite concat_records. apply batch_records.
Qed.

End Batch.

(** ** Paths *)

Section Paths.

Lemma rfind_dir (dir name : string) :
  rfind "/" name = (-1)%Z ->
  rfind "/" (dir ++ "/" ++ name)%string = Z.of_nat (String.length dir).
Proof.
  intros H. induction dir as [|c dir IH].
  - simpl. now rewrite H.
  - change (String c dir ++ "/" ++ name)%string
      with (String c (dir ++ "/" ++ name)%string).
    cbn [rfind]. rewrite IH. cbn [String.length].
    destruct (0 <=? Z.of_nat (String.length dir))%Z eqn:E.
    + lia.
    + apply Z.leb_gt in E. lia.
Qed.

Lemma substring_all (s : string) : String.substring 0 (String.length s) s = s.
Proof. induction s as [|c s IH]; simpl; [reflexivity | now rewrite IH]. Qed.

Lemma substring_skip (s1 s2 : string) (n : nat) :
  String.substring (String.length s1) n (s1 ++ s2)%string = String.substring 0 n s2.
Proof. induction s1 as [|c s1 IH]; simpl; [reflexivity | exact IH]. Qed.

Lemma length_append (s1 s2 : string) :
  String.length (s1 ++ s2)%string = String.length s1 + String.length s2.
Proof. induction s1 as [|c s1 IH]; simpl; [reflexivity | now rewrite IH]. Qed.

Lemma basename_dir (dir name : string) :
  rfind "/" name = (-1)%Z -> basename (dir ++ "/" ++ name)%string = name.
Proof.
  intros H. unfold basename. rewrite (rfind_dir dir name H).
  replace (Z.to_nat (Z.of_nat (String.length dir) + 1))
    with (String.length (dir ++ "/")%string) by (rewrite length_append; simpl; lia).
  replace (dir ++ "/" ++ name)%string with ((dir ++ "/") ++ name)%string
    by (clear; induction dir as [|c dir IH]; simpl; [reflexivity | now rewrite IH]).
  rewrite substring_skip, length_append.
  replace (String.length (dir ++ "/")%string + String.length name
           - String.length (dir ++ "/")%string) with (String.length name) by lia.
  apply substring_all.
Qed.

End Paths.

(** ** Columns of the aligned frame *)

Section Columns.

Lemma keys_without (c : string) (r : dict) :
  keys (without c r) = filter (fun k => negb (String.eqb k c)) (keys r).
Proof.
  induction r as [|[k v] r IH]; simpl; [reflexivity|].
  destruct (String.eqb k c); simpl; now rewrite IH.
Qed.

Lemma align_keys (f : string) (ds : list dict) (i : nat) (r : dict) :
  In (i, r) (rows (align f ds)) -> keys r = columns (align f ds).
Proof.
  intros H. apply align_row in H. destruct H as [r0 [H [_ ->]]].
  apply filled_row in H. destruct H as [_ [Hk _]].
  rewrite keys_setitem, keys_without, Hk. reflexivity.
Qed.

Lemma keys_make_row (m : message) :
  keys (make_row m) = "timestamp" :: "type" :: fields_of (get_type m).
Proof. now destruct m. Qed.

Lemma fields_in_schema (t c : string) : In c (fields_of t) -> In c tracked_fields.
Proof.
  unfold fields_of.
  destruct (String.eqb t "SYS_STATUS"); [simpl; tauto|].
  destruct (String.eqb t "VFR_HUD"); [simpl; tauto|].
  destruct (String.eqb t "ATTITUDE"); [simpl; tauto|].
  contradiction.
Qed.

Lemma fields_are_keys (m : message) (c : string) :
  In c (fields_of (get_type m)) ->
  In c (keys (make_row m)) /\ c <> "type" /\ c <> "source_file".
Proof.
  destruct m; simpl; intros H;
    repeat (destruct H as [<-|H]; [repeat split; try discriminate; tauto|]);
    contradiction.
Qed.

Lemma tracked_not_reserved (c : string) :
  In c ("timestamp" :: tracked_fields) -> c <> "type" /\ c <> "source_file".
Proof.
  simpl. intros H.
  repeat (destruct H as [<-|H]; [split; discriminate|]). contradiction.
Qed.

(** In a row of the aligned frame, every field set by some message of the
    file holds a valid value, observed at or before the row. *)
Lemma align_present (f : string) (msgs : list message) (i : nat) (r : dict)
      (m : message) (c : string) :
  In (i, r) (rows (align f (map make_row msgs))) ->
  In m msgs -> In c ("timestamp" :: fields_of (get_type m)) ->
  exists v, most_recent_valid c (firstn (S i) msgs) = Some v /\ get r c = Some v.
Proof.
  intros Hin Hm Hf.
  assert (Hkey : In c (keys (make_row m)) /\ c <> "type" /\ c <> "source_file").
  { destruct Hf as [<-|Hf]; [|now apply fields_are_keys].
    repeat split; try discriminate. rewrite keys_make_row. now left. }
  destruct Hkey as [Hkey [Ht Hs]].
  pose proof (align_get f (map make_row msgs) i r c Hin Ht Hs) as Hget.
  apply align_row in Hin. destruct Hin as [r0 [Hin _]].
  apply filled_row in Hin. destruct Hin as [_ [Hk [Hc Hlast]]].
  destruct (get_In r0 c) as [v Hv].
  { rewrite Hk. unfold from_records. cbn [columns]. apply In_union_all.
    right. exists (keys (make_row m)). split; [|assumption].
    apply in_map. now apply in_map. }
  exists v. rewrite Hget.
  rewrite <- last_valid_messages, <- firstn_map, <- Hlast. now split.
Qed.


(** The tracked state after a message is the state before it, overwritten
    by the valid values the message carries. *)
Lemma filled_step (msgs : list message) (j l l' : nat) (r r' : dict)
      (m : message) (c : string) :
  nth_error (rows (filled msgs)) j = Some (l, r) ->
  nth_error (rows (filled msgs)) (S j) = Some (l', r') ->
  nth_error msgs (S j) = Some m ->
  In c (columns (filled msgs)) ->
  get r' c = match carried m c with
             | Some v => if isna v then get r c else Some v
             | None => get r c
             end.
Proof.
  unfold filled, ffill, from_records, carried. cbn [rows columns].
  set (ds := map make_row msgs). set (cols := union_all [] (map keys ds)).
  intros H H' Hm Hc.
  destruct (nth_error (combine (seq 0 (List.length ds)) (map (reindex cols) ds)) (S j))
    as [[l0 raw]|] eqn:E.
  - rewrite (ffill_from_step _ _ _ _ _ _ _ _ _ H H' E).
    apply nth_error_records in E. destruct E as [d0 [Hd0 ->]].
    unfold ds in Hd0. rewrite (map_nth_error make_row _ _ Hm) in Hd0.
    injection Hd0 as <-.
    apply nth_error_In in H.
    apply (ffill_from_spec cols ds [] [] 0 l r (tracks_nil cols)) in H.
    destruct H as [_ [_ [_ [Hk _]]]].
    destruct (get_In r c) as [p Hp]; [now rewrite Hk|].
    rewrite get_fill, (get_reindex cols _ c Hc), Hp.
    destruct (get (make_row m) c) as [v|]; [now destruct (isna v)|].
    now rewrite isna_NaN.
  - apply (nth_error_ffill_from []) in E. congruence.
Qed.

End Columns.

(** ** Column order *)

Section Header.

Lemma fields_cases (t : string) :
  (t = "SYS_STATUS" /\ fields_of t = ["voltage"; "current"; "battery_remaining"]) \/
  (t = "VFR_HUD" /\ fields_of t = ["throttle"; "altitude"; "groundspeed"]) \/
  (t = "ATTITUDE" /\ fields_of t = ["roll"; "pitch"]) \/
  fields_of t = [].
Proof.
  unfold fields_of.
  destruct (String.eqb_spec t "SYS_STATUS") as [->|_]; [now left|].
  destruct (String.eqb_spec t "VFR_HUD") as [->|_]; [right; now left|].
  destruct (String.eqb_spec t "ATTITUDE") as [->|_]; [right; right; now left|].
  now right; right; right.
Qed.

Ltac split_fields H :=
  simpl in H; repeat (destruct H as [H|H]; [symmetry in H|]); try contradiction.

Lemma fields_disjoint (t t' c : string) :
  In c (fields_of t) -> In c (fields_of t') -> t = t'.
Proof.
  destruct (fields_cases t) as [[-> E]|[[-> E]|[[-> E]|E]]];
    destruct (fields_cases t') as [[-> E']|[[-> E']|[[-> E']|E']]];
    rewrite ?E, ?E'; intros H H'; try reflexivity; try contradiction;
    split_fields H; subst c; split_fields H'; discriminate.
Qed.

Lemma fields_NoDup (t : string) : NoDup (fields_of t).
Proof.
  destruct (fields_cases t) as [[_ E]|[[_ E]|[[_ E]|E]]]; rewrite E;
    repeat constructor; simpl; intros H;
    repeat (destruct H as [H|H]; [discriminate|]); contradiction.
Qed.

Lemma fields_not_reserved (t c : string) :
  In c (fields_of t) -> c <> "timestamp" /\ c <> "type" /\ c <> "source_file".
Proof.
  destruct (fields_cases t) as [[_ E]|[[_ E]|[[_ E]|E]]]; rewrite E; intros H;
    try contradiction; split_fields H; subst c; repeat split; discriminate.
Qed.

Lemma union_layout (seen : list string) (t : string) :
  union (layout seen) ("timestamp" :: "type" :: fields_of t) =
  layout (if mem t seen then seen else seen ++ [t]).
Proof.
  change (union (layout seen) ("timestamp" :: "type" :: fields_of t))
    with (union (layout seen) (fields_of t)).
  destruct (mem t seen) eqn:E.
  - apply union_incl. intros c Hc. right. right.
    apply in_flat_map. exists t. split; [now apply mem_In | assumption].
  - apply mem_not_In in E. rewrite union_fresh.
    + unfold layout. rewrite flat_map_app. simpl. now rewrite app_nil_r.
    + apply fields_NoDup.
    + intros c Hc Hin. destruct (fields_not_reserved t c Hc) as [H1 [H2 _]].
      destruct Hin as [Hin|[Hin|Hin]]; [congruence | congruence |].
      apply in_flat_map in Hin. destruct Hin as [t' [Ht' Hc']].
      apply E. now rewrite (fields_disjoint t t' c Hc Hc').
Qed.

Lemma layout_arrival (seen : list string) (msgs : list message) :
  union_all (layout seen) (map keys (map make_row msgs)) =
  layout (union seen (map get_type msgs)).
Proof.
  unfold union_all. revert seen. induction msgs as [|m msgs IH]; intros seen.
  - reflexivity.
  - cbn [map fold_left union]. rewrite keys_make_row, union_layout. apply IH.
Qed.

Lemma columns_arrival (m : message) (msgs : list message) :
  columns (from_records (map make_row (m :: msgs))) = layout (arrival (m :: msgs)).
Proof.
  unfold from_records, arrival. cbn [columns map].
  change (union_all [] (keys (make_row m) :: map keys (map make_row msgs)))
    with (union_all (union [] (keys (make_row m))) (map keys (map make_row msgs))).
  replace (union [] (keys (make_row m))) with (layout [get_type m])
    by (now destruct m).
  apply layout_arrival.
Qed.

Lemma filter_all (A : Type) (p : A -> bool) (l : list A) :
  (forall x, In x l -> p x = true) -> filter p l = l.
Proof.
  induction l as [|a l IH]; intros H; simpl; [reflexivity|].
  rewrite (H a (or_introl eq_refl)), IH; [reflexivity|].
  intros x Hx. apply H. now right.
Qed.

(** The columns of the aligned frame of a log: the timestamp, the fields
    of each message type in order of first arrival, the file name. *)
Lemma align_columns (f : string) (m : message) (msgs : list message) :
  columns (align f (map make_row (m :: msgs))) =
  "timestamp" :: flat_map fields_of (arrival (m :: msgs)) ++ ["source_file"].
Proof.
  unfold align, assign, drop, where_eq, dropna, ffill.
  cbn [columns]. rewrite columns_arrival. unfold layout.
  set (fs := flat_map fields_of (arrival (m :: msgs))).
  assert (Hfs : forall c, In c fs -> c <> "type" /\ c <> "source_file").
  { intros c Hc. apply in_flat_map in Hc. destruct Hc as [t [_ Hc]].
    apply fields_not_reserved in Hc. tauto. }
  cbn [filter String.eqb Ascii.eqb Bool.eqb negb].
  rewrite filter_all.
  - assert (E : mem "source_file" ("timestamp" :: fs) = false).
    { apply mem_not_In. intros [H|H]; [discriminate|].
      apply Hfs in H. tauto. }
    now rewrite E.
  - intros c Hc. apply negb_true_iff, String.eqb_neq. now apply Hfs.
Qed.

Lemma messages_of_opened (d : disk) (f : string) (msgs : list message) :
  d f = Opened (map Msg msgs) -> messages_of d f = msgs.
Proof.
  unfold messages_of. intros ->. induction msgs as [|m msgs IH]; simpl; congruence.
Qed.

Lemma kept_columns (d : disk) (f : string) :
  map columns (kept d f) = if contributes d f then [file_columns d f] else [].
Proof.
  unfold kept, contributes, rows_of_file.
  destruct (outcome (process_single_tlog d f)) as [[df|]|] eqn:E; try reflexivity.
  apply process_frame in E. destruct E as [msgs [Hd [Hne ->]]].
  destruct (empty (align f (map make_row msgs))) eqn:Ee.
  - now rewrite (align_empty _ _ Ee).
  - unfold empty in Ee.
    destruct (rows (align f (map make_row msgs))) as [|ir rs]; [discriminate|].
    destruct msgs as [|m msgs]; [congruence|].
    change (map columns (if negb false then [align f (map make_row (m :: msgs))] else []))
      with [columns (align f (map make_row (m :: msgs)))].
    rewrite align_columns. unfold file_columns.
    now rewrite (messages_of_opened d f _ Hd).
Qed.

Lemma batch_columns (d : disk) (files : list string) :
  map columns (flat_map (kept d) files) =
  map (file_columns d) (filter (contributes d) files).
Proof.
  induction files as [|f files IH]; [reflexivity|].
  cbn [flat_map filter]. rewrite map_app, kept_columns, IH.
  now destruct (contributes d f).
Qed.

Lemma file_columns_schema (d : disk) (f : string) : incl (file_columns d f) schema.
Proof.
  intros c [<-|Hc]; [now left|]. apply in_app_iff in Hc.
  destruct Hc as [Hc|[<-|[]]].
  - apply in_flat_map in Hc. destruct Hc as [t [_ Hc]].
    right. apply in_or_app. left. now apply (fields_in_schema t).
  - right. apply in_or_app. right. now left.
Qed.

Lemma contributes_anchor (d : disk) (f : string) :
  contributes d f = true -> In anchor (arrival (messages_of d f)).
Proof.
  unfold contributes. destruct (rows_of_file d f) as [|r rs] eqn:E; [discriminate|].
  intros _. assert (Hr : In r (rows_of_file d f)) by (rewrite E; now left).
  apply kept_of_row in Hr. destruct Hr as [df [i [_ [Hin Hp]]]].
  apply process_frame in Hp. destruct Hp as [msgs [Hd [_ ->]]].
  apply align_anchor in Hin. destruct Hin as [m [Hn [Ht _]]].
  rewrite (messages_of_opened d f _ Hd). unfold arrival. apply In_union. right.
  apply nth_error_In in Hn. rewrite <- Ht. now apply in_map.
Qed.

End Header.

(** ** Rows of the written table *)

Section Written.

Variable d : disk.

Lemma written_keys (files : list string) (out : csv) (f : string) (r : dict) :
  outcome (main d files) = Returned (Some out) ->
  In f files -> In r (rows_of_file d f) ->
  incl (keys r) (header out).
Proof.
  intros H Hf Hr c Hc. apply main_written in H. destruct H as [_ [_ ->]].
  apply kept_of_row in Hr. destruct Hr as [df [i [Hk [Hin Hp]]]].
  apply (header_covers d files f df c Hf Hk).
  apply process_frame in Hp. destruct Hp as [msgs [_ [_ ->]]].
  now rewrite <- (align_keys _ _ _ _ Hin).
Qed.

(** A written cell is the cell of the file's own row, or a missing cell
    in a column the file does not have. *)
Lemma written_cell (files : list string) (out : csv) (f : string) (r : dict)
      (c : string) :
  outcome (main d files) = Returned (Some out) ->
  In f files -> In r (rows_of_file d f) ->
  get (reindex (header out) r) c = get r c \/
  (get r c = None /\ get (reindex (header out) r) c = Some NaN).
Proof.
  intros H Hf Hr. pose proof (written_keys files out f r H Hf Hr) as Hk.
  destruct (in_dec string_dec c (header out)) as [Hc|Hc].
  - rewrite (get_reindex _ _ _ Hc). destruct (get r c) as [v|]; [now left|].
    right. now split.
  - left. rewrite get_None by now rewrite keys_reindex.
    symmetry. apply get_None. intros Hkey. apply Hc. now apply Hk.
Qed.


End Written.

(** ** The claims *)

Section Claims.

(** C1, as stated: the value of a row is the one carried by the most
    recent message that set the field.  It fails when that message carries
    [nan]: the fill keeps the older value.  In nan.tlog the third message
    sets roll to [nan] and the row of the anchor that follows holds the
    roll of the second message. *)
Lemma forward_fill_skips_nan :
  sample_disk "nan.tlog" = Opened (map Msg nan_log) /\
  outcome (process_single_tlog sample_disk "nan.tlog") = Returned (Some nan_frame) /\
  In (3, nan_row) (rows nan_frame) /\
  nth_error nan_log 2 = Some (ATTITUDE 3 PrimFloat.nan 0.75) /\
  most_recent "roll" (firstn 4 nan_log) = Some (Num PrimFloat.nan) /\
  get nan_row "roll" = Some (Num 0.5) /\
  get nan_row "roll" <> most_recent "roll" (firstn 4 nan_log).
Proof.
  split; [reflexivity|]. split; [reflexivity|].
  split; [vm_compute; left; reflexivity|].
  split; [reflexivity|]. split; [reflexivity|]. split; [reflexivity|].
  intros E.
  apply (f_equal (fun o => match o with Some v => isna v | None => false end)) in E.
  vm_compute in E. discriminate.
Qed.

(** C1, amended: in every emitted row the value of each tracked field (and
    the timestamp) is the value carried by the most recent message, at or
    before the row's anchor message in the same file, that set the field to
    a value other than [nan]; in the filled frame, the state after a
    message is the state before it with exactly the fields the message
    carries with such a value overwritten, the others as they were. *)
Theorem forward_fill_valid (d : disk) (f : string) (msgs : list message)
        (df : DataFrame) :
  d f = Opened (map Msg msgs) ->
  outcome (process_single_tlog d f) = Returned (Some df) ->
  (forall i r c,
      In (i, r) (rows df) -> In c ("timestamp" :: tracked_fields) ->
      get r c = most_recent_valid c (firstn (S i) msgs)) /\
  (forall j l l' r r' m c,
      nth_error (rows (filled msgs)) j = Some (l, r) ->
      nth_error (rows (filled msgs)) (S j) = Some (l', r') ->
      nth_error msgs (S j) = Some m ->
      In c (columns (filled msgs)) ->
      get r' c = match carried m c with
                 | Some v => if isna v then get r c else Some v
                 | None => get r c
                 end).
Proof.
  intros Hd H. rewrite (process_frame_of d f msgs df Hd H). split.
  - intros i r c Hin Hc. apply tracked_not_reserved in Hc. destruct Hc as [Ht Hs].
    rewrite (align_get f _ i r c Hin Ht Hs), firstn_map.
    apply last_valid_messages.
  - intros j l l' r r' m c. apply filled_step.
Qed.

Lemma forward_fill_valid_witness :
  sample_disk "nan.tlog" = Opened (map Msg nan_log) /\
  outcome (process_single_tlog sample_disk "nan.tlog") = Returned (Some nan_frame) /\
  In (3, nan_row) (rows nan_frame) /\
  get nan_row "roll" = most_recent_valid "roll" (firstn 4 nan_log) /\
  get nan_row "voltage" = most_recent_valid "voltage" (firstn 4 nan_log) /\
  nth_error nan_log 2 = Some att_nan /\
  get nan_state2 "roll" = get nan_state1 "roll" /\
  get nan_state2 "pitch" = Some (Num 0.75) /\
  get nan_state2 "voltage" = get nan_state1 "voltage".
Proof.
  assert (H1 : sample_disk "nan.tlog" = Opened (map Msg nan_log)) by reflexivity.
  assert (H2 : outcome (process_single_tlog sample_disk "nan.tlog")
               = Returned (Some nan_frame)) by reflexivity.
  assert (H3 : In (3, nan_row) (rows nan_frame)) by (vm_compute; left; reflexivity).
  assert (H4 : nth_error (rows (filled nan_log)) 1 = Some (1, nan_state1))
    by (vm_compute; reflexivity).
  assert (H5 : nth_error (rows (filled nan_log)) 2 = Some (2, nan_state2))
    by (vm_compute; reflexivity).
  assert (H6 : nth_error nan_log 2 = Some att_nan) by reflexivity.
  destruct (forward_fill_valid sample_disk "nan.tlog" nan_log nan_frame H1 H2)
    as [H Hstep].
  split; [exact H1|]. split; [exact H2|]. split; [exact H3|].
  split; [apply (H 3 nan_row _ H3); simpl; tauto|].
  split; [apply (H 3 nan_row _ H3); simpl; tauto|].
  split; [exact H6|].
  split; [|split].
  - apply (Hstep 1 1 2 nan_state1 nan_state2 att_nan "roll" H4 H5 H6).
    vm_compute; tauto.
  - apply (Hstep 1 1 2 nan_state1 nan_state2 att_nan "pitch" H4 H5 H6).
    vm_compute; tauto.
  - apply (Hstep 1 1 2 nan_state1 nan_state2 att_nan "voltage" H4 H5 H6).
    vm_compute; tauto.
Defined.




(** C4: rows are produced only at occurrences of the anchor message type
    VFR_HUD, at most one per occurrence and none for other messages; a row
    carries the timestamp of its anchor message (a timestamp read from a
    log is a number, never [nan]); the rows of a file follow the arrival
    order of their anchor messages. *)
Theorem anchor_cadence (d : disk) (f : string) (msgs : list message)
        (df : DataFrame) :
  d f = Opened (map Msg msgs) ->
  outcome (process_single_tlog d f) = Returned (Some df) ->
  StronglySorted lt (map fst (rows df)) /\
  forall i r,
    In (i, r) (rows df) ->
    exists m,
      nth_error msgs i = Some m /\ get_type m = anchor /\
      (PrimFloat.is_nan (_timestamp m) = false ->
       get r "timestamp" = Some (Num (_timestamp m))).
Proof.
  intros Hd H. rewrite (process_frame_of d f msgs df Hd H).
  split; [apply align_labels|]. intros i r. apply align_anchor.
Qed.

Lemma anchor_cadence_witness :
  sample_disk "a.tlog" = Opened (map Msg a_log) /\
  outcome (process_single_tlog sample_disk "a.tlog") = Returned (Some a_frame) /\
  map fst (rows a_frame) = [2; 3] /\
  StronglySorted lt (map fst (rows a_frame)) /\
  In (2, a_row) (rows a_frame) /\
  nth_error a_log 2 = Some hud0 /\
  PrimFloat.is_nan (_timestamp hud0) = false /\
  get a_row "timestamp" = Some (Num (_timestamp hud0)).
Proof.
  assert (H1 : sample_disk "a.tlog" = Opened (map Msg a_log)) by reflexivity.
  assert (H2 : outcome (process_single_tlog sample_disk "a.tlog")
               = Returned (Some a_frame)) by reflexivity.
  assert (H3 : In (2, a_row) (rows a_frame)) by (vm_compute; left; reflexivity).
  destruct (anchor_cadence sample_disk "a.tlog" a_log a_frame H1 H2) as [Hs Hr].
  split; [exact H1|]. split; [exact H2|]. split; [reflexivity|].
  split; [exact Hs|]. split; [exact H3|]. split; [reflexivity|].
  split; [reflexivity|].
  destruct (Hr 2 a_row H3) as [m [Hn [_ Hts]]].
  assert (Em : m = hud0).
  { change (nth_error a_log 2) with (Some hud0) in Hn. congruence. }
  rewrite Em in Hts. apply Hts. reflexivity.
Defined.

(** C10: the source_file of every row emitted for a path is the final
    component of the path, not the path; rows emitted for two paths with
    the same final component carry the same source_file. *)
Theorem source_file_is_basename (d : disk) (f : string) (df : DataFrame)
        (i : nat) (r : dict) :
  outcome (process_single_tlog d f) = Returned (Some df) ->
  In (i, r) (rows df) ->
  get r "source_file" = Some (Str (basename f)) /\
  (forall dir name,
      f = (dir ++ "/" ++ name)%string -> rfind "/" name = (-1)%Z ->
      get r "source_file" = Some (Str name)) /\
  (forall f' df' i' r',
      outcome (process_single_tlog d f') = Returned (Some df') ->
      In (i', r') (rows df') ->
      basename f' = basename f ->
      get r' "source_file" = get r "source_file").
Proof.
  intros H Hin. apply process_frame in H. destruct H as [msgs [_ [_ ->]]].
  pose proof (align_source_file _ _ _ _ Hin) as E. split; [exact E|]. split.
  - intros dir name -> Hname. now rewrite E, basename_dir.
  - intros f' df' i' r' H' Hin' Hb.
    apply process_frame in H'. destruct H' as [msgs' [_ [_ ->]]].
    now rewrite E, (align_source_file _ _ _ _ Hin'), Hb.
Qed.

Lemma source_file_is_basename_witness :
  outcome (process_single_tlog sample_disk "old/a.tlog") = Returned (Some old_a_frame) /\
  In (2, old_a_row) (rows old_a_frame) /\
  get old_a_row "source_file" = Some (Str "a.tlog") /\
  outcome (process_single_tlog sample_disk "a.tlog") = Returned (Some a_frame) /\
  In (2, a_row) (rows a_frame) /\
  get a_row "source_file" = get old_a_row "source_file".
Proof.
  assert (H1 : outcome (process_single_tlog sample_disk "old/a.tlog")
               = Returned (Some old_a_frame)) by reflexivity.
  assert (H2 : In (2, old_a_row) (rows old_a_frame)) by (vm_compute; left; reflexivity).
  assert (H3 : outcome (process_single_tlog sample_disk "a.tlog")
               = Returned (Some a_frame)) by reflexivity.
  assert (H4 : In (2, a_row) (rows a_frame)) by (vm_compute; left; reflexivity).
  destruct (source_file_is_basename sample_disk "old/a.tlog" old_a_frame 2 old_a_row H1 H2)
    as [_ [Hname Hsame]].
  split; [exact H1|]. split; [exact H2|]. split; [|split; [exact H3|split; [exact H4|]]].
  - apply (Hname "old" "a.tlog"); reflexivity.
  - apply (Hsame "a.tlog" a_frame 2 a_row H3 H4). reflexivity.
Defined.

(** C9: in the written table the rows of an earlier file precede the
    rows of every later file, the rows of one file keep their order and
    their values, and every row carries the name of its file. *)
Theorem concatenation_order (d : disk) (files : list string) (out : csv) :
  outcome (main d files) = Returned (Some out) ->
  records out =
  flat_map (fun f => map (reindex (header out)) (rows_of_file d f)) files /\
  forall f r,
    In f files -> In r (rows_of_file d f) ->
    get (reindex (header out) r) "source_file" = Some (Str (basename f)) /\
    forall c v, get r c = Some v -> get (reindex (header out) r) c = Some v.
Proof.
  intros H. split; [now apply main_records|].
  intros f r Hf Hr.
  assert (Hc : forall c v, get r c = Some v ->
                           get (reindex (header out) r) c = Some v).
  { intros c v Hv.
    destruct (written_cell d files out f r c H Hf Hr) as [E|[E _]]; congruence. }
  split; [|exact Hc]. apply Hc.
  apply kept_of_row in Hr. destruct Hr as [df [i [_ [Hin Hp]]]].
  apply process_frame in Hp. destruct Hp as [msgs [_ [_ ->]]].
  exact (align_source_file f (map make_row msgs) i r Hin).
Qed.

Lemma concatenation_order_witness :
  exists out,
    outcome (main sample_disk ["logs/b.tlog"; "a.tlog"]) = Returned (Some out) /\
    records out =
    flat_map (fun f => map (reindex (header out)) (rows_of_file sample_disk f))
             ["logs/b.tlog"; "a.tlog"] /\
    map (fun r => get r "source_file") (records out) =
    [Some (Str "b.tlog"); Some (Str "a.tlog"); Some (Str "a.tlog")].
Proof.
  eexists. split; [vm_compute; reflexivity|]. split; [|reflexivity].
  apply (concatenation_order sample_disk ["logs/b.tlog"; "a.tlog"]).
  vm_compute. reflexivity.
Defined.




(** C7: a file that cannot be opened is skipped with a diagnostic and left
    out of the result, and the batch gives what it gives without that
    file: every remaining file is processed. *)
Theorem open_error_skipped (d : disk) (pre post : list string) (bad : string) :
  d bad = OpenFails ->
  process_single_tlog d bad = ([Parsing bad; ErrorOpening bad], Returned None) /\
  rows_of_file d bad = [] /\
  outcome (main d (pre ++ bad :: post)) = outcome (main d (pre ++ post)) /\
  (existsb (raises d) pre = false ->
   In (ErrorOpening bad) (stdout (main d (pre ++ bad :: post)))).
Proof.
  intros H. pose proof (process_open_fails d bad H) as Hp.
  assert (Hr : raises d bad = false) by (unfold raises; now rewrite Hp).
  assert (Hk : kept d bad = []) by (unfold kept; now rewrite Hp).
  split; [exact Hp|]. split; [unfold rows_of_file; now rewrite Hp|]. split.
  - rewrite !main_outcome, !batch_outcome, !existsb_app, !flat_map_app.
    cbn [existsb flat_map]. now rewrite Hr, Hk.
  - intros Hpre. rewrite main_stdout by (now destruct pre).
    right. apply in_or_app. left.
    rewrite batch_stdout_app by assumption. apply in_or_app. right.
    apply batch_stdout_head. rewrite Hp. simpl. tauto.
Qed.

Lemma open_error_skipped_witness :
  sample_disk "bad.tlog" = OpenFails /\
  (exists out,
      outcome (main sample_disk (["a.tlog"] ++ "bad.tlog" :: ["logs/b.tlog"]))
      = Returned (Some out) /\
      map (fun r => get r "source_file") (records out) =
      [Some (Str "a.tlog"); Some (Str "a.tlog"); Some (Str "b.tlog")]) /\
  outcome (main sample_disk (["a.tlog"] ++ "bad.tlog" :: ["logs/b.tlog"]))
  = outcome (main sample_disk (["a.tlog"] ++ ["logs/b.tlog"])) /\
  In (ErrorOpening "bad.tlog")
     (stdout (main sample_disk (["a.tlog"] ++ "bad.tlog" :: ["logs/b.tlog"]))).
Proof.
  split; [reflexivity|].
  split; [eexists; split; [vm_compute; reflexivity | reflexivity]|].
  destruct (open_error_skipped sample_disk ["a.tlog"] ["logs/b.tlog"] "bad.tlog")
    as [_ [_ [Hsame Hdiag]]]; [reflexivity|].
  split; [exact Hsame|]. apply Hdiag. reflexivity.
Defined.

(** C8: when every file of the batch fails to open or yields no row, the
    batch reports that nothing was processed and writes no output; a log
    without any message yields no row and is reported as having no usable
    data, which is not an error of the batch. *)
Theorem nothing_processed (d : disk) (files : list string) :
  (forall f, In f files ->
             outcome (process_single_tlog d f) = Returned None \/
             exists df, outcome (process_single_tlog d f) = Returned (Some df) /\
                        rows df = []) ->
  outcome (main d files) = Returned None /\
  (files <> [] -> In CouldNotProcess (stdout (main d files))) /\
  (files = [] -> stdout (main d files) = [NoTlogFiles]) /\
  (forall f, d f = Opened [] ->
             process_single_tlog d f = ([Parsing f; NoUsableData f], Returned None)).
Proof.
  intros H.
  assert (Hr : existsb (raises d) files = false).
  { destruct (existsb (raises d) files) eqn:E; [|reflexivity].
    apply existsb_exists in E. destruct E as [f [Hf E]]. unfold raises in E.
    destruct (H f Hf) as [Hp|[df [Hp _]]]; rewrite Hp in E; discriminate. }
  assert (Hk : flat_map (kept d) files = []).
  { clear Hr. induction files as [|f files IH]; [reflexivity|].
    cbn [flat_map]. rewrite IH by (intros g Hg; apply H; now right).
    rewrite app_nil_r. unfold kept.
    destruct (H f (or_introl eq_refl)) as [Hp|[df [Hp Hrows]]]; rewrite Hp.
    - reflexivity.
    - unfold empty. now rewrite Hrows. }
  assert (Hb : outcome (batch d files []) = Returned []).
  { now rewrite batch_outcome, Hr, Hk. }
  split; [|split; [|split]].
  - now rewrite main_outcome, Hb.
  - intros Hne. rewrite (main_stdout d files Hne), Hb.
    right. apply in_or_app. right. now left.
  - now intros ->.
  - apply process_no_message.
Qed.

Lemma nothing_processed_witness :
  outcome (main sample_disk ["bad.tlog"; "empty.tlog"]) = Returned None /\
  In CouldNotProcess (stdout (main sample_disk ["bad.tlog"; "empty.tlog"])) /\
  process_single_tlog sample_disk "empty.tlog"
  = ([Parsing "empty.tlog"; NoUsableData "empty.tlog"], Returned None).
Proof.
  destruct (nothing_processed sample_disk ["bad.tlog"; "empty.tlog"])
    as [Hout [Hmsg [_ Hempty]]].
  - intros f [<-|[<-|[]]]; left; reflexivity.
  - split; [exact Hout|]. split; [apply Hmsg; discriminate|].
    apply Hempty. reflexivity.
Defined.

(** C6: the code misses the claim.  The claim asks that an error partway
    through a file be contained: the file is given up and the batch goes
    on, as the [try] of lines 12 to 16 does for an error of the open.  The
    read loop of lines 20 to 24 has no such handler: with cut.tlog, whose
    fourth [recv_match] raises, between two good logs, the exception
    leaves [process_single_tlog] and [main], the batch writes nothing and
    the third file is never parsed, while without cut.tlog the same batch
    writes its table. *)
Lemma decode_error_is_fatal :
  sample_disk "cut.tlog" = Opened [Msg sys0; Msg att0; Msg hud0; Raise] /\
  main sample_disk ["a.tlog"; "cut.tlog"; "logs/b.tlog"]
  = ([Found 3; Parsing "a.tlog"; Parsing "cut.tlog"], Raised) /\
  ~ In (Parsing "logs/b.tlog")
       (stdout (main sample_disk ["a.tlog"; "cut.tlog"; "logs/b.tlog"])) /\
  exists out,
    outcome (main sample_disk ["a.tlog"; "logs/b.tlog"]) = Returned (Some out).
Proof.
  split; [reflexivity|]. split; [reflexivity|]. split.
  - vm_compute. intros [H|[H|[H|[]]]]; discriminate.
  - eexists. vm_compute. reflexivity.
Qed.

(** What an exception of [recv_match] does to any batch: it ends [main]
    with that exception, so that nothing is written, and the files after
    the one that raised are not processed. *)
Theorem decode_error_aborts_batch (d : disk) (pre post : list string) (f : string)
        (stream : list recv) :
  d f = Opened stream -> In Raise stream ->
  outcome (main d (pre ++ f :: post)) = Raised /\
  (existsb (raises d) pre = false ->
   stdout (main d (pre ++ f :: post)) =
   Found (List.length (pre ++ f :: post)) ::
   flat_map (fun g => stdout (process_single_tlog d g)) pre ++ [Parsing f]).
Proof.
  intros Hd Hraise. pose proof (process_raise d f stream Hd Hraise) as Hp.
  assert (Hr : raises d f = true) by (unfold raises; now rewrite Hp).
  assert (Hb : outcome (batch d (pre ++ f :: post) []) = Raised).
  { rewrite batch_outcome, existsb_app. cbn [existsb]. rewrite Hr.
    now rewrite orb_true_r. }
  split.
  - now rewrite main_outcome, Hb.
  - intros Hpre. rewrite main_stdout by (now destruct pre).
    rewrite Hb, app_nil_r, (batch_stdout_raise d pre post f [] Hpre Hr), Hp.
    reflexivity.
Qed.

Lemma decode_error_aborts_batch_witness :
  sample_disk "cut.tlog" = Opened [Msg sys0; Msg att0; Msg hud0; Raise] /\
  In Raise [Msg sys0; Msg att0; Msg hud0; Raise] /\
  outcome (main sample_disk (["a.tlog"] ++ "cut.tlog" :: ["logs/b.tlog"])) = Raised /\
  stdout (main sample_disk (["a.tlog"] ++ "cut.tlog" :: ["logs/b.tlog"]))
  = [Found 3; Parsing "a.tlog"; Parsing "cut.tlog"].
Proof.
  split; [reflexivity|]. split; [simpl; tauto|].
  destruct (decode_error_aborts_batch sample_disk ["a.tlog"] ["logs/b.tlog"] "cut.tlog"
              [Msg sys0; Msg att0; Msg hud0; Raise]) as [Hout Hlog].
  - reflexivity.
  - simpl; tauto.
  - split; [exact Hout|]. rewrite Hlog; reflexivity.
Defined.

(** C5, as stated: the written table always has the ten columns of the
    schema in the schema's order.  It fails on the order, which follows the
    arrival of the message types (logs/b.tlog starts with a VFR_HUD
    message), and on the set, which lacks the fields of a message type
    that never arrives (hud.tlog holds VFR_HUD messages only). *)
Lemma header_depends_on_arrival :
  exists out1 out2,
    outcome (main sample_disk ["logs/b.tlog"]) = Returned (Some out1) /\
    header out1 =
    ["timestamp"; "throttle"; "altitude"; "groundspeed"; "voltage"; "current";
     "battery_remaining"; "roll"; "pitch"; "source_file"] /\
    header out1 <> schema /\
    outcome (main sample_disk ["hud.tlog"]) = Returned (Some out2) /\
    header out2 = ["timestamp"; "throttle"; "altitude"; "groundspeed"; "source_file"] /\
    header out2 <> schema.
Proof.
  do 2 eexists.
  split; [vm_compute; reflexivity|]. split; [reflexivity|].
  split; [discriminate|].
  split; [vm_compute; reflexivity|]. split; [reflexivity|]. discriminate.
Qed.

(** C5, amended: the columns of the written table are, for each file that
    contributes rows, the timestamp, the fields of each message type of
    that file in the order in which the types first arrive, and
    source_file, merged over the files in order of first appearance.  They
    are distinct names of the schema and always include timestamp,
    throttle, altitude, groundspeed and source_file; they are the schema's
    ten columns in the schema's order when, in the first file that
    contributes rows, the message types first arrive in the order
    SYS_STATUS, VFR_HUD, ATTITUDE. *)
Theorem header_follows_arrival (d : disk) (files : list string) (out : csv) :
  outcome (main d files) = Returned (Some out) ->
  header out = union_all [] (map (file_columns d) (filter (contributes d) files)) /\
  NoDup (header out) /\
  incl (header out) schema /\
  incl ["timestamp"; "throttle"; "altitude"; "groundspeed"; "source_file"]
       (header out) /\
  (forall pre f post,
      files = pre ++ f :: post ->
      filter (contributes d) pre = [] ->
      contributes d f = true ->
      arrival (messages_of d f) = ["SYS_STATUS"; "VFR_HUD"; "ATTITUDE"] ->
      header out = schema).
Proof.
  intros H. apply main_written in H. destruct H as [_ [Hne ->]].
  assert (Hh : header (to_csv (concat (flat_map (kept d) files)))
               = union_all [] (map (file_columns d) (filter (contributes d) files))).
  { unfold to_csv, concat. cbn [header columns]. now rewrite batch_columns. }
  rewrite Hh. split; [reflexivity|]. split; [apply NoDup_union_all; constructor|].
  split; [|split].
  - intros c Hc. apply In_union_all in Hc. destruct Hc as [[]|[ks [Hks Hc]]].
    apply in_map_iff in Hks. destruct Hks as [f [<- _]].
    now apply (file_columns_schema d f).
  - destruct (filter (contributes d) files) as [|f fs] eqn:E.
    { exfalso. apply Hne. apply map_eq_nil with (f := columns).
      now rewrite batch_columns, E. }
    assert (Hf : contributes d f = true).
    { assert (Hin : In f (filter (contributes d) files)) by (rewrite E; now left).
      now apply filter_In in Hin. }
    apply contributes_anchor in Hf.
    intros c Hc. apply In_union_all. right. exists (file_columns d f).
    split; [now left|]. unfold file_columns.
    destruct Hc as [<-|Hc]; [now left|]. right. apply in_or_app.
    destruct Hc as [<-|[<-|[<-|[<-|[]]]]];
      try (left; apply in_flat_map; exists anchor; split; [assumption | simpl; tauto]).
    right. now left.
  - intros pre f post -> Hpre Hf Harr.
    rewrite filter_app, Hpre. cbn [app filter]. rewrite Hf. cbn [map].
    unfold file_columns at 1. rewrite Harr.
    transitivity (union_all schema (map (file_columns d) (filter (contributes d) post)));
      [reflexivity|].
    apply union_all_incl. intros ks Hks. apply in_map_iff in Hks.
    destruct Hks as [g [<- _]]. apply file_columns_schema.
Qed.

Lemma header_follows_arrival_witness :
  exists out,
    outcome (main sample_disk ["bad.tlog"; "c.tlog"; "hud.tlog"])
    = Returned (Some out) /\
    arrival (messages_of sample_disk "c.tlog") = ["SYS_STATUS"; "VFR_HUD"; "ATTITUDE"] /\
    header out = schema.
Proof.
  eexists. split; [vm_compute; reflexivity|]. split; [reflexivity|].
  match goal with
  | |- header ?o = _ =>
      destruct (header_follows_arrival sample_disk
                  ["bad.tlog"; "c.tlog"; "hud.tlog"] o) as [_ [_ [_ [_ H]]]];
        [vm_compute; reflexivity|]
  end.
  apply (H ["bad.tlog"] "c.tlog" ["hud.tlog"]); reflexivity.
Defined.

End Claims.

(** ** Further properties of the program *)

(** *** Integer fields are never missing *)

Section WireRanges.

Lemma all_from_spec (p : Z -> bool) (n : nat) (lo z : Z) :
  all_from p lo n = true -> (lo <= z < lo + Z.of_nat n)%Z -> p z = true.
Proof.
  revert lo. induction n as [|n IH]; intros lo H Hz; [lia|].
  cbn [all_from] in H. apply andb_true_iff in H. destruct H as [Hlo H].
  destruct (Z.eq_dec z lo) as [->|Hne]; [exact Hlo|].
  apply (IH (lo + 1)%Z H). lia.
Qed.

Lemma uint16_float (n : Z) : uint16 n -> PrimFloat.is_nan (float_of_int n) = false.
Proof.
  intros H. apply negb_true_iff.
  apply (all_from_spec (fun k => negb (PrimFloat.is_nan (float_of_int k)))
                       (Z.to_nat 65536) 0 n); [vm_compute; reflexivity|].
  unfold uint16 in H. lia.
Qed.

Lemma int8_float (n : Z) : int8 n -> PrimFloat.is_nan (float_of_int n) = false.
Proof.
  intros H. apply negb_true_iff.
  apply (all_from_spec (fun k => negb (PrimFloat.is_nan (float_of_int k)))
                       (Z.to_nat 256) (-128) n); [vm_compute; reflexivity|].
  unfold int8 in H. lia.
Qed.

Lemma millivolts_float (n : Z) :
  uint16 n -> PrimFloat.is_nan (float_of_int n / 1000) = false.
Proof.
  intros H. apply negb_true_iff.
  apply (all_from_spec (fun k => negb (PrimFloat.is_nan (float_of_int k / 1000)))
                       (Z.to_nat 65536) 0 n); [vm_compute; reflexivity|].
  unfold uint16 in H. lia.
Qed.

Lemma centiamps_float (n : Z) :
  int16 n -> PrimFloat.is_nan (float_of_int n / 100) = false.
Proof.
  intros H. apply negb_true_iff.
  apply (all_from_spec (fun k => negb (PrimFloat.is_nan (float_of_int k / 100)))
                       (Z.to_nat 65536) (-32768) n); [vm_compute; reflexivity|].
  unfold int16 in H. lia.
Qed.

End WireRanges.

(** *** When a row is emitted *)

Section Emission.

Lemma last_valid_not_na (c : string) (ds : list dict) (v : cell) :
  last_valid c ds = Some v -> isna v = false.
Proof.
  induction ds as [|d ds IH]; simpl; [discriminate|].
  destruct (last_valid c ds) as [w|].
  - intros E. injection E as <-. now apply IH.
  - destruct (get d c) as [w|]; [|discriminate].
    destruct (isna w) eqn:Ew; [discriminate|]. intros E. now injection E as <-.
Qed.

Lemma last_valid_app (c : string) (l1 l2 : list dict) :
  last_valid c (l1 ++ l2) =
  match last_valid c l2 with
  | Some v => Some v
  | None => last_valid c l1
  end.
Proof.
  induction l1 as [|d l1 IH]; simpl.
  - now destruct (last_valid c l2).
  - rewrite IH. now destruct (last_valid c l2).
Qed.

Lemma get_of_In (r : dict) (k : string) (v : cell) :
  NoDup (keys r) -> In (k, v) r -> get r k = Some v.
Proof.
  induction r as [|[k0 v0] r IH]; simpl; intros Hnd Hin; [contradiction|].
  inversion Hnd as [|? ? Hk0 Hnd']; subst.
  destruct Hin as [E|Hin].
  - injection E as -> ->. now rewrite String.eqb_refl.
  - destruct (String.eqb_spec k0 k) as [->|_]; [|now apply IH].
    exfalso. apply Hk0. change k with (fst (k, v)). now apply in_map.
Qed.

Lemma ffill_row_exists (cols : list string) (ds : list dict) (prev : dict) (i : nat) :
  i < List.length ds ->
  exists r,
    In (i, r) (ffill_from prev (combine (seq 0 (List.length ds)) (map (reindex cols) ds))).
Proof.
  intros Hi.
  set (rs := combine (seq 0 (List.length ds)) (map (reindex cols) ds)).
  assert (Hlab : map fst (ffill_from prev rs) = seq 0 (List.length ds)).
  { unfold rs. rewrite ffill_from_labels.
    apply labels_combine. now rewrite length_seq, length_map. }
  assert (Hlen : i < List.length (ffill_from prev rs)).
  { rewrite <- (length_map fst), Hlab, length_seq. exact Hi. }
  destruct (nth_error (ffill_from prev rs) i) as [[l r]|] eqn:E.
  - exists r. apply nth_error_In with (n := i).
    assert (El : nth_error (map fst (ffill_from prev rs)) i = Some l)
      by now rewrite nth_error_map, E.
    rewrite Hlab in El.
    rewrite (nth_error_nth' _ 0) in El by now rewrite length_seq.
    rewrite seq_nth in El by exact Hi. injection El as <-. exact E.
  - apply nth_error_None in E. lia.
Qed.

Lemma last_valid_type (msgs : list message) (i : nat) (m : message) :
  nth_error msgs i = Some m ->
  last_valid "type" (firstn (S i) (map make_row msgs)) = Some (Str (get_type m)).
Proof.
  intros Hn.
  destruct (firstn_snoc _ msgs i) as [m' [Hn' Hf]];
    [apply nth_error_Some; congruence|].
  rewrite Hn in Hn'. injection Hn' as <-.
  rewrite firstn_map, Hf, map_app. simpl.
  now rewrite last_valid_snoc, make_row_type.
Qed.

(** An anchor message at which every column of the frame has a valid
    value yields a row. *)
Lemma align_emits (f : string) (msgs : list message) (i : nat) (m : message) :
  nth_error msgs i = Some m -> get_type m = anchor ->
  (forall m' c,
      In m' msgs -> In c ("timestamp" :: fields_of (get_type m')) ->
      most_recent_valid c (firstn (S i) msgs) <> None) ->
  exists r, In (i, r) (rows (align f (map make_row msgs))).
Proof.
  intros Hn Ha Hready.
  set (ds := map make_row msgs). set (cols := union_all [] (map keys ds)).
  assert (Hi : i < List.length ds).
  { unfold ds. rewrite length_map. apply nth_error_Some. congruence. }
  destruct (ffill_row_exists cols ds [] i Hi) as [r0 Hr0].
  destruct (ffill_from_spec cols ds [] [] 0 i r0 (tracks_nil cols) Hr0)
    as [j [Hj [_ [Hk Htr]]]].
  assert (j = i) by lia. subst j. clear Hj. rewrite app_nil_l in Htr.
  assert (Hcol : forall c m', In m' msgs -> In c (keys (make_row m')) -> In c cols).
  { intros c m' Hm' Hc. apply In_union_all. right. exists (keys (make_row m')).
    split; [|exact Hc]. unfold ds. now do 2 apply in_map. }
  assert (Htype : get r0 "type" = Some (Str (get_type m))).
  { assert (Hc : In "type" cols).
    { apply (Hcol "type" m); [now apply nth_error_In in Hn|].
      rewrite keys_make_row. right. now left. }
    specialize (Htr "type" Hc). unfold ds in Htr.
    now rewrite (last_valid_type msgs i m Hn) in Htr. }
  assert (Hcomplete : complete r0 = true).
  { unfold complete. apply forallb_forall. intros [k v] Hkv. cbn [snd].
    assert (Hnd : NoDup (keys r0)).
    { rewrite Hk. apply NoDup_union_all. constructor. }
    pose proof (get_of_In r0 k v Hnd Hkv) as Hget.
    assert (Hkc : In k cols).
    { rewrite <- Hk. change k with (fst (k, v)). now apply in_map. }
    pose proof (Htr k Hkc) as Hkt.
    apply In_union_all in Hkc. destruct Hkc as [[]|[ks [Hks Hkin]]].
    unfold ds in Hks. rewrite map_map in Hks. apply in_map_iff in Hks.
    destruct Hks as [m' [<- Hm']]. rewrite keys_make_row in Hkin.
    destruct (String.eqb_spec k "type") as [->|Hnt].
    - rewrite Htype in Hget. now injection Hget as <-.
    - assert (Hf : In k ("timestamp" :: fields_of (get_type m'))).
      { destruct Hkin as [<-|[<-|Hkin]]; [now left | congruence | now right]. }
      specialize (Hready m' k Hm' Hf).
      rewrite <- last_valid_messages, <- firstn_map in Hready. fold ds in Hready.
      destruct (last_valid k (firstn (S i) ds)) as [w|] eqn:E; [|congruence].
      rewrite Hkt in Hget. injection Hget as <-.
      unfold notna. now rewrite (last_valid_not_na _ _ _ E). }
  exists (setitem (without "type" r0) "source_file" (Str (basename f))).
  unfold align, assign, drop, where_eq, dropna, ffill, from_records.
  cbn [rows columns]. rewrite map_map. apply in_map_iff.
  exists (i, r0). split; [reflexivity|].
  apply filter_In. split.
  - apply filter_In. split; [exact Hr0 | exact Hcomplete].
  - cbn [snd]. rewrite Htype, Ha. reflexivity.
Qed.

Lemma firstn_prefix (A : Type) (l : list A) (i j : nat) :
  i <= j -> exists rest, firstn (S j) l = firstn (S i) l ++ rest.
Proof.
  intros H. exists (skipn (S i) (firstn (S j) l)).
  rewrite <- (firstn_skipn (S i) (firstn (S j) l)) at 1.
  rewrite firstn_firstn. now replace (Nat.min (S i) (S j)) with (S i) by lia.
Qed.

End Emission.

(** *** Helpers for the properties below *)

Section MoreFacts.

Lemma carried_elsewhere (m : message) (t c : string) :
  get_type m <> t -> In c (fields_of t) -> carried m c = None.
Proof.
  intros Ht Hc. unfold carried. apply get_None. rewrite keys_make_row.
  destruct (fields_not_reserved t c Hc) as [H1 [H2 _]].
  intros [E|[E|Hin]]; [congruence | congruence |].
  apply Ht. apply (fields_disjoint _ _ c Hin Hc).
Qed.

Lemma most_recent_valid_none (msgs : list message) (t c : string) :
  (forall m, In m msgs -> get_type m <> t) -> In c (fields_of t) ->
  most_recent_valid c msgs = None.
Proof.
  intros H Hc. induction msgs as [|m msgs IH]; [reflexivity|].
  cbn [most_recent_valid]. rewrite IH by (intros m' Hm'; apply H; now right).
  now rewrite (carried_elsewhere m t c (H m (or_introl eq_refl)) Hc).
Qed.

Lemma most_recent_valid_app (c : string) (l1 l2 : list message) :
  most_recent_valid c (l1 ++ l2) =
  match most_recent_valid c l2 with
  | Some v => Some v
  | None => most_recent_valid c l1
  end.
Proof.
  rewrite <- !last_valid_messages, map_app. apply last_valid_app.
Qed.

(** The value of a field in a row, when the last message that carries the
    field before the row's anchor carries a valid value. *)
Lemma align_latest (f : string) (msgs : list message) (i : nat) (r : dict)
      (before after : list message) (m : message) (c : string) (v : cell) :
  In (i, r) (rows (align f (map make_row msgs))) ->
  firstn (S i) msgs = before ++ m :: after ->
  most_recent_valid c after = None ->
  carried m c = Some v -> isna v = false ->
  c <> "type" -> c <> "source_file" ->
  get r c = Some v.
Proof.
  intros Hin Hf Hafter Hm Hv Ht Hs.
  rewrite (align_get f _ i r c Hin Ht Hs), firstn_map, last_valid_messages, Hf.
  rewrite most_recent_valid_app. cbn [most_recent_valid].
  now rewrite Hafter, Hm, Hv.
Qed.

Lemma kept_nil (d : disk) (f : string) : rows_of_file d f = [] -> kept d f = [].
Proof.
  unfold rows_of_file, kept.
  destruct (outcome (process_single_tlog d f)) as [[df|]|]; try reflexivity.
  intros H. apply map_eq_nil in H. unfold empty. now rewrite H.
Qed.

Lemma NoDup_align_columns (f : string) (ds : list dict) :
  NoDup (columns (align f ds)).
Proof.
  unfold align, assign, drop, where_eq, dropna, ffill, from_records. cbn [columns].
  set (cols := filter _ _).
  assert (Hnd : NoDup cols).
  { unfold cols. apply NoDup_filter, NoDup_union_all. constructor. }
  destruct (mem "source_file" cols) eqn:E; [assumption|].
  apply mem_not_In in E. apply NoDup_app; [assumption | repeat constructor; simpl; tauto |].
  intros x Hx [<-|[]]. contradiction.
Qed.

Lemma length_flat_map_sum (A B : Type) (g : A -> list B) (l : list A) :
  List.length (flat_map g l) = list_sum (map (fun x => List.length (g x)) l).
Proof.
  induction l as [|a l IH]; [reflexivity|].
  cbn [flat_map map list_sum]. now rewrite length_app, IH.
Qed.

Lemma rfind_lower (ch : ascii) (s : string) : (-1 <= rfind ch s)%Z.
Proof.
  induction s as [|c s IH]; simpl; [lia|].
  destruct (0 <=? rfind ch s)%Z eqn:E; [apply Z.leb_le in E; lia|].
  destruct (Ascii.eqb c ch); lia.
Qed.

(** [basename], one character at a time. *)
Lemma basename_cons (c : ascii) (r : string) :
  basename (String c r) =
  if (0 <=? rfind "/" r)%Z then basename r
  else if Ascii.eqb c "/" then r else String c r.
Proof.
  unfold basename. cbn [rfind String.length].
  pose proof (rfind_lower "/" r) as Hlow.
  destruct (0 <=? rfind "/" r)%Z eqn:E.
  - apply Z.leb_le in E.
    replace (Z.to_nat (rfind "/" r + 1 + 1)) with (S (Z.to_nat (rfind "/" r + 1))) by lia.
    reflexivity.
  - apply Z.leb_gt in E. assert (Er : rfind "/" r = (-1)%Z) by lia.
    destruct (Ascii.eqb c "/").
    + change (Z.to_nat (0 + 1)) with 1. cbn [String.substring].
      replace (S (String.length r) - 1) with (String.length r) by lia.
      apply substring_all.
    + change (Z.to_nat (-1 + 1)) with 0.
      replace (S (String.length r) - 0) with (S (String.length r)) by lia.
      cbn [String.substring]. now rewrite substring_all.
Qed.

Lemma basename_no_separator (p : string) : rfind "/" (basename p) = (-1)%Z.
Proof.
  induction p as [|c r IH]; [reflexivity|]. rewrite basename_cons.
  destruct (0 <=? rfind "/" r)%Z eqn:E; [exact IH|].
  destruct (Ascii.eqb c "/") eqn:Ec.
  - apply Z.leb_gt in E. pose proof (rfind_lower "/" r). lia.
  - cbn [rfind]. now rewrite E, Ec.
Qed.

Lemma basename_suffix (p : string) : exists dir, p = (dir ++ basename p)%string.
Proof.
  induction p as [|c r [dir IH]]; [now exists EmptyString|]. rewrite basename_cons.
  destruct (0 <=? rfind "/" r)%Z.
  - exists (String c dir). simpl. now rewrite <- IH.
  - destruct (Ascii.eqb c "/").
    + now exists (String c EmptyString).
    + now exists EmptyString.
Qed.

Lemma basename_plain (p : string) : rfind "/" p = (-1)%Z -> basename p = p.
Proof.
  intros Hp. destruct p as [|c r]; [reflexivity|]. rewrite basename_cons.
  cbn [rfind] in Hp.
  destruct (0 <=? rfind "/" r)%Z eqn:E; [apply Z.leb_le in E; lia|].
  destruct (Ascii.eqb c "/"); [discriminate | reflexivity].
Qed.




End MoreFacts.

(** *** Properties *)

Section Properties.

(** X1: in an emitted row the battery columns are the converted fields of
    the last SYS_STATUS message at or before the row's anchor: voltage is
    voltage_battery / 1000.0, current is current_battery / 100.0 and
    battery_remaining is passed through, for fields within their wire
    ranges. *)
Theorem battery_units (d : disk) (f : string) (msgs : list message) (df : DataFrame)
        (i : nat) (r : dict) (before after : list message)
        (t : float) (voltage_battery current_battery battery_remaining : Z) :
  d f = Opened (map Msg msgs) ->
  outcome (process_single_tlog d f) = Returned (Some df) ->
  In (i, r) (rows df) ->
  firstn (S i) msgs =
  before ++ SYS_STATUS t voltage_battery current_battery battery_remaining :: after ->
  (forall m, In m after -> get_type m <> "SYS_STATUS") ->
  uint16 voltage_battery -> int16 current_battery -> int8 battery_remaining ->
  get r "voltage" = Some (Num (float_of_int voltage_battery / 1000)) /\
  get r "current" = Some (Num (float_of_int current_battery / 100)) /\
  get r "battery_remaining" = Some (Num (float_of_int battery_remaining)).
Proof.
  intros Hd H Hin Hf Hafter Hv Hc Hb.
  rewrite (process_frame_of d f msgs df Hd H) in Hin.
  assert (Hnone : forall c, In c (fields_of "SYS_STATUS") ->
                            most_recent_valid c after = None).
  { intros c. now apply most_recent_valid_none. }
  split; [|split].
  - apply (align_latest f msgs i r before after _ _ _ Hin Hf);
      [apply Hnone; simpl; tauto | reflexivity | | discriminate | discriminate].
    now apply millivolts_float.
  - apply (align_latest f msgs i r before after _ _ _ Hin Hf);
      [apply Hnone; simpl; tauto | reflexivity | | discriminate | discriminate].
    now apply centiamps_float.
  - apply (align_latest f msgs i r before after _ _ _ Hin Hf);
      [apply Hnone; simpl; tauto | reflexivity | | discriminate | discriminate].
    now apply int8_float.
Qed.

Lemma battery_units_witness :
  sample_disk "a.tlog" = Opened (map Msg a_log) /\
  outcome (process_single_tlog sample_disk "a.tlog") = Returned (Some a_frame) /\
  In (2, a_row) (rows a_frame) /\
  firstn 3 a_log = [] ++ SYS_STATUS 1 12400 150 87 :: [att0; hud0] /\
  uint16 12400 /\ int16 150 /\ int8 87 /\
  get a_row "voltage" = Some (Num (float_of_int 12400 / 1000)) /\
  get a_row "current" = Some (Num (float_of_int 150 / 100)) /\
  get a_row "battery_remaining" = Some (Num (float_of_int 87)).
Proof.
  assert (H1 : sample_disk "a.tlog" = Opened (map Msg a_log)) by reflexivity.
  assert (H2 : outcome (process_single_tlog sample_disk "a.tlog")
               = Returned (Some a_frame)) by reflexivity.
  assert (H3 : In (2, a_row) (rows a_frame)) by (vm_compute; left; reflexivity).
  assert (H4 : firstn 3 a_log = [] ++ SYS_STATUS 1 12400 150 87 :: [att0; hud0])
    by reflexivity.
  assert (H5 : forall m, In m [att0; hud0] -> get_type m <> "SYS_STATUS")
    by (intros m [<-|[<-|[]]]; discriminate).
  assert (H6 : uint16 12400) by (unfold uint16; lia).
  assert (H7 : int16 150) by (unfold int16; lia).
  assert (H8 : int8 87) by (unfold int8; lia).
  split; [exact H1|]. split; [exact H2|]. split; [exact H3|]. split; [exact H4|].
  split; [exact H6|]. split; [exact H7|]. split; [exact H8|].
  exact (battery_units sample_disk "a.tlog" a_log a_frame 2 a_row [] [att0; hud0]
                       1 12400 150 87 H1 H2 H3 H4 H5 H6 H7 H8).
Defined.

(** X2: an emitted row reports the throttle of its own anchor message,
    and its altitude and groundspeed whenever the anchor carries numbers
    for them. *)
Theorem anchor_own_fields (d : disk) (f : string) (msgs : list message)
        (df : DataFrame) (i : nat) (r : dict)
        (t : float) (throttle : Z) (alt groundspeed : float) :
  d f = Opened (map Msg msgs) ->
  outcome (process_single_tlog d f) = Returned (Some df) ->
  In (i, r) (rows df) ->
  nth_error msgs i = Some (VFR_HUD t throttle alt groundspeed) ->
  uint16 throttle ->
  get r "throttle" = Some (Num (float_of_int throttle)) /\
  (PrimFloat.is_nan alt = false -> get r "altitude" = Some (Num alt)) /\
  (PrimFloat.is_nan groundspeed = false ->
   get r "groundspeed" = Some (Num groundspeed)).
Proof.
  intros Hd H Hin Hn Hth.
  rewrite (process_frame_of d f msgs df Hd H) in Hin.
  destruct (firstn_snoc _ msgs i) as [m [Hn' Hf]];
    [apply nth_error_Some; congruence|].
  rewrite Hn in Hn'. injection Hn' as <-.
  assert (Hlast : forall c v,
             carried (VFR_HUD t throttle alt groundspeed) c = Some v ->
             isna v = false -> c <> "type" -> c <> "source_file" ->
             get r c = Some v).
  { intros c v Hc Hv Ht Hs.
    apply (align_latest f msgs i r (firstn i msgs) [] _ c v Hin Hf);
      try assumption. reflexivity. }
  split; [|split].
  - apply Hlast; [reflexivity | | discriminate | discriminate].
    now apply uint16_float.
  - intros Ha. apply Hlast; [reflexivity | exact Ha | discriminate | discriminate].
  - intros Hg. apply Hlast; [reflexivity | exact Hg | discriminate | discriminate].
Qed.

Lemma anchor_own_fields_witness :
  sample_disk "a.tlog" = Opened (map Msg a_log) /\
  outcome (process_single_tlog sample_disk "a.tlog") = Returned (Some a_frame) /\
  In (2, a_row) (rows a_frame) /\
  nth_error a_log 2 = Some (VFR_HUD 4 50 10 3) /\
  uint16 50 /\
  get a_row "throttle" = Some (Num (float_of_int 50)) /\
  get a_row "altitude" = Some (Num 10) /\
  get a_row "groundspeed" = Some (Num 3).
Proof.
  assert (H1 : sample_disk "a.tlog" = Opened (map Msg a_log)) by reflexivity.
  assert (H2 : outcome (process_single_tlog sample_disk "a.tlog")
               = Returned (Some a_frame)) by reflexivity.
  assert (H3 : In (2, a_row) (rows a_frame)) by (vm_compute; left; reflexivity).
  assert (H4 : nth_error a_log 2 = Some (VFR_HUD 4 50 10 3)) by reflexivity.
  assert (H5 : uint16 50) by (unfold uint16; lia).
  destruct (anchor_own_fields sample_disk "a.tlog" a_log a_frame 2 a_row 4 50 10 3
                              H1 H2 H3 H4 H5) as [Hth [Halt Hgs]].
  split; [exact H1|]. split; [exact H2|]. split; [exact H3|]. split; [exact H4|].
  split; [exact H5|]. split; [exact Hth|].
  split; [apply Halt | apply Hgs]; reflexivity.
Defined.

(** X3: a log with at least one message yields a frame, and the frame has
    a row for message [i] exactly when message [i] is an anchor message and
    every column of the frame (the timestamp and each field of each message
    type present in the log) has had a value other than [nan] at or before
    [i]. *)
Theorem row_emitted_iff (d : disk) (f : string) (msgs : list message) :
  d f = Opened (map Msg msgs) -> msgs <> [] ->
  exists df,
    outcome (process_single_tlog d f) = Returned (Some df) /\
    forall i,
      (exists r, In (i, r) (rows df)) <->
      (exists m, nth_error msgs i = Some m /\ get_type m = anchor) /\
      (forall m' c,
          In m' msgs -> In c ("timestamp" :: fields_of (get_type m')) ->
          most_recent_valid c (firstn (S i) msgs) <> None).
Proof.
  intros Hd Hne. destruct msgs as [|m0 msgs]; [congruence|].
  exists (align f (map make_row (m0 :: msgs))).
  split; [now rewrite (process_messages d f m0 msgs Hd)|].
  intros i. split.
  - intros [r Hin]. split.
    + destruct (align_anchor f _ i r Hin) as [m [Hn [Ha _]]]. now exists m.
    + intros m' c Hm' Hc.
      destruct (align_present f _ i r m' c Hin Hm' Hc) as [v [Hv _]]. congruence.
  - intros [[m [Hn Ha]] Hready]. now apply (align_emits f _ i m).
Qed.

Lemma row_emitted_iff_witness :
  sample_disk "logs/b.tlog" = Opened (map Msg b_log) /\
  b_log <> [] /\
  exists df,
    outcome (process_single_tlog sample_disk "logs/b.tlog") = Returned (Some df) /\
    (exists r, In (3, r) (rows df)) /\
    ~ (exists r, In (0, r) (rows df)).
Proof.
  assert (H1 : sample_disk "logs/b.tlog" = Opened (map Msg b_log)) by reflexivity.
  assert (H2 : b_log <> []) by discriminate.
  split; [exact H1|]. split; [exact H2|].
  destruct (row_emitted_iff sample_disk "logs/b.tlog" b_log H1 H2) as [df [Hp Hiff]].
  exists df. split; [exact Hp|]. split.
  - apply Hiff. split.
    + exists hud1. split; reflexivity.
    + intros m' c Hm' Hc.
      destruct Hm' as [<-|[<-|[<-|[<-|[]]]]];
        simpl in Hc;
        repeat (destruct Hc as [<-|Hc]; [vm_compute; discriminate|]);
        contradiction.
  - intros Hrow. apply Hiff in Hrow. destruct Hrow as [_ Hready].
    apply (Hready sys0 "voltage"); [simpl; tauto | simpl; tauto | reflexivity].
Defined.

(** X4: incomplete rows are dropped at the head of a log only: once one
    anchor message has yielded a row, every later anchor message of the
    same log yields a row. *)
Theorem gating_is_a_prefix (d : disk) (f : string) (msgs : list message)
        (df : DataFrame) (i j : nat) (r : dict) (m : message) :
  d f = Opened (map Msg msgs) ->
  outcome (process_single_tlog d f) = Returned (Some df) ->
  In (i, r) (rows df) ->
  i <= j -> nth_error msgs j = Some m -> get_type m = anchor ->
  exists r', In (j, r') (rows df).
Proof.
  intros Hd H Hin Hij Hn Ha.
  rewrite (process_frame_of d f msgs df Hd H) in Hin |- *.
  apply (align_emits f msgs j m Hn Ha). intros m' c Hm' Hc.
  destruct (align_present f msgs i r m' c Hin Hm' Hc) as [v [Hv _]].
  destruct (firstn_prefix _ msgs i j Hij) as [rest ->].
  rewrite most_recent_valid_app, Hv. now destruct (most_recent_valid c rest).
Qed.

Lemma gating_is_a_prefix_witness :
  sample_disk "a.tlog" = Opened (map Msg a_log) /\
  outcome (process_single_tlog sample_disk "a.tlog") = Returned (Some a_frame) /\
  In (2, a_row) (rows a_frame) /\
  2 <= 3 /\ nth_error a_log 3 = Some hud1 /\ get_type hud1 = anchor /\
  exists r', In (3, r') (rows a_frame).
Proof.
  assert (H1 : sample_disk "a.tlog" = Opened (map Msg a_log)) by reflexivity.
  assert (H2 : outcome (process_single_tlog sample_disk "a.tlog")
               = Returned (Some a_frame)) by reflexivity.
  assert (H3 : In (2, a_row) (rows a_frame)) by (vm_compute; left; reflexivity).
  assert (H4 : 2 <= 3) by lia.
  assert (H5 : nth_error a_log 3 = Some hud1) by reflexivity.
  assert (H6 : get_type hud1 = anchor) by reflexivity.
  split; [exact H1|]. split; [exact H2|]. split; [exact H3|]. split; [exact H4|].
  split; [exact H5|]. split; [exact H6|].
  exact (gating_is_a_prefix sample_disk "a.tlog" a_log a_frame 2 3 a_row hud1
                            H1 H2 H3 H4 H5 H6).
Defined.

(** X5: a log that holds messages but no anchor message yields an empty
    frame without any diagnostic line (only a log without messages is
    reported as having no usable data), and [main] leaves it out. *)
Theorem log_without_anchor (d : disk) (f : string) (msgs : list message) :
  d f = Opened (map Msg msgs) -> msgs <> [] ->
  (forall m, In m msgs -> get_type m <> anchor) ->
  exists df,
    process_single_tlog d f = ([Parsing f], Returned (Some df)) /\
    rows df = [] /\ empty df = true /\ kept d f = [].
Proof.
  intros Hd Hne Hno. destruct msgs as [|m0 msgs]; [congruence|].
  exists (align f (map make_row (m0 :: msgs))).
  pose proof (process_messages d f m0 msgs Hd) as Hp.
  assert (Hrows : rows (align f (map make_row (m0 :: msgs))) = []).
  { destruct (rows (align f (map make_row (m0 :: msgs)))) as [|[i r] rs] eqn:E;
      [reflexivity|].
    assert (Hin : In (i, r) (rows (align f (map make_row (m0 :: msgs)))))
      by (rewrite E; now left).
    destruct (align_anchor f _ i r Hin) as [m [Hn [Ha _]]].
    apply nth_error_In in Hn. now destruct (Hno m Hn). }
  split; [exact Hp|]. split; [exact Hrows|].
  split; [unfold empty; now rewrite Hrows|].
  apply kept_nil. unfold rows_of_file. rewrite Hp. cbn [outcome snd].
  now rewrite Hrows.
Qed.

Lemma log_without_anchor_witness :
  idle_disk "idle.tlog" = Opened (map Msg idle_log) /\
  idle_log <> [] /\
  exists df,
    process_single_tlog idle_disk "idle.tlog" = ([Parsing "idle.tlog"], Returned (Some df)) /\
    rows df = [] /\ empty df = true /\ kept idle_disk "idle.tlog" = [].
Proof.
  assert (H1 : idle_disk "idle.tlog" = Opened (map Msg idle_log)) by reflexivity.
  assert (H2 : idle_log <> []) by discriminate.
  split; [exact H1|]. split; [exact H2|].
  apply (log_without_anchor idle_disk "idle.tlog" idle_log H1 H2).
  intros m [<-|[<-|[<-|[]]]]; discriminate.
Defined.

(** X6: a file whose processing returns without any row (it does not open,
    holds no message, holds no anchor, or never completes a row) changes
    nothing in what the batch writes: neither rows nor columns. *)
Theorem rowless_file_ignored (d : disk) (pre post : list string) (f : string) :
  raises d f = false -> rows_of_file d f = [] ->
  outcome (main d (pre ++ f :: post)) = outcome (main d (pre ++ post)).
Proof.
  intros Hr Hrows. pose proof (kept_nil d f Hrows) as Hk.
  rewrite !main_outcome, !batch_outcome, !existsb_app, !flat_map_app.
  cbn [existsb flat_map]. now rewrite Hr, Hk.
Qed.

Lemma rowless_file_ignored_witness :
  raises idle_disk "idle.tlog" = false /\
  rows_of_file idle_disk "idle.tlog" = [] /\
  outcome (main idle_disk (["a.tlog"] ++ "idle.tlog" :: ["hud.tlog"]))
  = outcome (main idle_disk (["a.tlog"] ++ ["hud.tlog"])).
Proof.
  assert (H1 : raises idle_disk "idle.tlog" = false) by reflexivity.
  assert (H2 : rows_of_file idle_disk "idle.tlog" = []) by reflexivity.
  split; [exact H1|]. split; [exact H2|].
  exact (rowless_file_ignored idle_disk ["a.tlog"] ["hud.tlog"] "idle.tlog" H1 H2).
Defined.

(** X7: the frame returned for a log has the columns timestamp, then the
    fields of each message type in the order in which the types first
    arrive in the log, then source_file; the columns are distinct, the
    type column is gone, and every row has exactly these columns. *)
Theorem frame_shape (d : disk) (f : string) (msgs : list message) (df : DataFrame) :
  d f = Opened (map Msg msgs) ->
  outcome (process_single_tlog d f) = Returned (Some df) ->
  columns df = "timestamp" :: flat_map fields_of (arrival msgs) ++ ["source_file"] /\
  NoDup (columns df) /\
  ~ In "type" (columns df) /\
  forall i r, In (i, r) (rows df) -> keys r = columns df.
Proof.
  intros Hd H. rewrite (process_frame_of d f msgs df Hd H).
  assert (Hcols : columns (align f (map make_row msgs)) =
                  "timestamp" :: flat_map fields_of (arrival msgs) ++ ["source_file"]).
  { destruct msgs as [|m0 msgs]; [|apply align_columns].
    rewrite (process_no_message d f Hd) in H. discriminate. }
  split; [exact Hcols|]. split; [apply NoDup_align_columns|]. split.
  - rewrite Hcols. intros [E|Hin]; [discriminate|].
    apply in_app_iff in Hin. destruct Hin as [Hin|[E|[]]]; [|discriminate].
    apply in_flat_map in Hin. destruct Hin as [t [_ Hin]].
    apply fields_not_reserved in Hin. tauto.
  - intros i r. apply align_keys.
Qed.

Lemma frame_shape_witness :
  sample_disk "logs/b.tlog" = Opened (map Msg b_log) /\
  outcome (process_single_tlog sample_disk "logs/b.tlog") = Returned (Some b_frame) /\
  columns b_frame =
  ["timestamp"; "throttle"; "altitude"; "groundspeed"; "voltage"; "current";
   "battery_remaining"; "roll"; "pitch"; "source_file"] /\
  keys b_row = columns b_frame.
Proof.
  assert (H1 : sample_disk "logs/b.tlog" = Opened (map Msg b_log)) by reflexivity.
  assert (H2 : outcome (process_single_tlog sample_disk "logs/b.tlog")
               = Returned (Some b_frame)) by reflexivity.
  assert (H3 : In (3, b_row) (rows b_frame)) by (vm_compute; left; reflexivity).
  destruct (frame_shape sample_disk "logs/b.tlog" b_log b_frame H1 H2)
    as [Hcols [_ [_ Hkeys]]].
  split; [exact H1|]. split; [exact H2|]. split; [exact Hcols|].
  exact (Hkeys 3 b_row H3).
Defined.



(** X9: the written table is rectangular (every record has exactly the
    header's columns, in the header's order) and has as many records as the
    files yield rows; the output then ends with the six lines of the
    summary: the rule, the number of files that gave rows, that number of
    records, the name of the output file, the rule, and the first five
    rows of the written table. *)
Theorem summary_counts (d : disk) (files : list string) (out : csv) :
  outcome (main d files) = Returned (Some out) ->
  (forall rec, In rec (records out) -> keys rec = header out) /\
  List.length (records out) =
  list_sum (map (fun f => List.length (rows_of_file d f)) files) /\
  exists before shown,
    stdout (main d files) =
    before ++ [RuleAfterBlank;
               DoneProcessed (List.length (filter (contributes d) files));
               TotalDataPoints (List.length (records out));
               SavedTo output_file;
               Rule;
               Table shown] /\
    columns shown = header out /\
    map snd (rows shown) = firstn 5 (records out).
Proof.
  intros H. pose proof (main_records d files out H) as Hrec.
  destruct (main_written d files out H) as [Hr [Hne Hout]].
  split; [|split].
  - intros rec Hin. rewrite Hrec in Hin. apply in_flat_map in Hin.
    destruct Hin as [f [_ Hin]]. apply in_map_iff in Hin.
    destruct Hin as [r [<- _]]. apply keys_reindex.
  - rewrite Hrec, length_flat_map_sum. f_equal. apply map_ext.
    intros f. apply length_map.
  - assert (Hfiles : files <> []) by (intros ->; now apply Hne).
    exists (Found (List.length files) :: stdout (batch d files [])).
    exists (head (concat (flat_map (kept d) files))).
    rewrite (main_stdout d files Hfiles), batch_outcome, Hr. cbn [app].
    assert (Hk : List.length (flat_map (kept d) files)
                 = List.length (filter (contributes d) files)).
    { rewrite <- (length_map columns), batch_columns. apply length_map. }
    assert (Hp : List.length (rows (concat (flat_map (kept d) files)))
                 = List.length (records out)).
    { rewrite Hout. unfold to_csv. cbn [records]. now rewrite length_map. }
    destruct (flat_map (kept d) files) as [|df dfs] eqn:E; [congruence|].
    unfold summary. rewrite Hk, Hp. split; [reflexivity|].
    rewrite Hout. unfold to_csv, head. cbn [header records columns rows].
    split; [reflexivity | symmetry; apply firstn_map].
Qed.

Lemma summary_counts_witness :
  exists out shown,
    outcome (main sample_disk ["a.tlog"; "bad.tlog"; "logs/b.tlog"]) = Returned (Some out) /\
    List.length (records out) = 3 /\
    stdout (main sample_disk ["a.tlog"; "bad.tlog"; "logs/b.tlog"]) =
    [Found 3; Parsing "a.tlog"; Parsing "bad.tlog"; ErrorOpening "bad.tlog";
     Parsing "logs/b.tlog"] ++
    [RuleAfterBlank; DoneProcessed 2; TotalDataPoints 3; SavedTo output_file; Rule;
     Table shown] /\
    map snd (rows shown) = records out.
Proof.
  eexists. eexists.
  split; [vm_compute; reflexivity|].
  match goal with
  | |- List.length (records ?o) = _ /\ _ =>
      destruct (summary_counts sample_disk ["a.tlog"; "bad.tlog"; "logs/b.tlog"] o)
        as [_ [Hlen _]]; [vm_compute; reflexivity|]
  end.
  split; [rewrite Hlen; reflexivity|].
  split; [vm_compute; reflexivity | reflexivity].
Defined.

(** X10: [os.path.basename] returns a suffix of the path that holds no
    separator; it leaves a path without separator unchanged and changes
    nothing when applied twice. *)
Theorem basename_component (p : string) :
  rfind "/" (basename p) = (-1)%Z /\
  (exists dir, p = (dir ++ basename p)%string) /\
  (rfind "/" p = (-1)%Z -> basename p = p) /\
  basename (basename p) = basename p.
Proof.
  split; [apply basename_no_separator|]. split; [apply basename_suffix|].
  split; [apply basename_plain|].
  apply basename_plain, basename_no_separator.
Qed.

Lemma basename_component_witness :
  rfind "/" "a.tlog" = (-1)%Z /\ basename "a.tlog" = "a.tlog" /\
  rfind "/" (basename "logs/2024/b.tlog") = (-1)%Z /\
  basename "logs/2024/b.tlog" = "b.tlog".
Proof.
  destruct (basename_component "a.tlog") as [_ [_ [Hid _]]].
  destruct (basename_component "logs/2024/b.tlog") as [Hnone _].
  split; [reflexivity|]. split; [apply Hid; reflexivity|].
  split; [exact Hnone | reflexivity].
Defined.

(** X11: for a file name as [glob.glob("*.tlog")] returns it, without a
    directory part, every row of the file carries the name itself as
    source_file. *)
Theorem glob_name_is_source_file (d : disk) (f : string) (df : DataFrame)
        (i : nat) (r : dict) :
  rfind "/" f = (-1)%Z ->
  outcome (process_single_tlog d f) = Returned (Some df) ->
  In (i, r) (rows df) ->
  get r "source_file" = Some (Str f).
Proof.
  intros Hf H Hin. apply process_frame in H. destruct H as [msgs [_ [_ ->]]].
  now rewrite (align_source_file _ _ _ _ Hin), (basename_plain f Hf).
Qed.

Lemma glob_name_is_source_file_witness :
  rfind "/" "a.tlog" = (-1)%Z /\
  outcome (process_single_tlog sample_disk "a.tlog") = Returned (Some a_frame) /\
  In (2, a_row) (rows a_frame) /\
  get a_row "source_file" = Some (Str "a.tlog").
Proof.
  assert (H1 : rfind "/" "a.tlog" = (-1)%Z) by reflexivity.
  assert (H2 : outcome (process_single_tlog sample_disk "a.tlog")
               = Returned (Some a_frame)) by reflexivity.
  assert (H3 : In (2, a_row) (rows a_frame)) by (vm_compute; left; reflexivity).
  split; [exact H1|]. split; [exact H2|]. split; [exact H3|].
  exact (glob_name_is_source_file sample_disk "a.tlog" a_frame 2 a_row H1 H2 H3).
Defined.



(** X13: a row emitted from a log is also emitted, with the same timestamp
    and tracked values, from every truncation of the log that still holds
    the row's anchor message: no value of a row comes from a later
    message. *)
Theorem truncation_stable (d d' : disk) (f : string) (msgs more : list message)
        (df : DataFrame) (i : nat) (r : dict) :
  d f = Opened (map Msg (msgs ++ more)) ->
  d' f = Opened (map Msg msgs) ->
  outcome (process_single_tlog d f) = Returned (Some df) ->
  In (i, r) (rows df) ->
  i < List.length msgs ->
  exists df' r',
    outcome (process_single_tlog d' f) = Returned (Some df') /\
    In (i, r') (rows df') /\
    forall c, In c ("timestamp" :: tracked_fields) -> get r' c = get r c.
Proof.
  intros Hd Hd' H Hin Hi.
  rewrite (process_frame_of d f _ df Hd H) in Hin.
  assert (Hfirst : firstn (S i) (msgs ++ more) = firstn (S i) msgs).
  { rewrite firstn_app. replace (S i - List.length msgs) with 0 by lia.
    cbn [firstn]. apply app_nil_r. }
  destruct (align_anchor f _ i r Hin) as [m [Hn [Ha _]]].
  rewrite nth_error_app1 in Hn by exact Hi.
  destruct (align_emits f msgs i m Hn Ha) as [r' Hin'].
  { intros m' c Hm' Hc.
    destruct (align_present f (msgs ++ more) i r m' c Hin) as [v [Hv _]];
      [apply in_or_app; now left | exact Hc |].
    rewrite Hfirst in Hv. congruence. }
  exists (align f (map make_row msgs)), r'.
  destruct msgs as [|m0 msgs]; [simpl in Hi; lia|].
  split; [now rewrite (process_messages d' f m0 msgs Hd')|].
  split; [exact Hin'|].
  intros c Hc. destruct (tracked_not_reserved c Hc) as [Ht Hs].
  rewrite (align_get f _ i r' c Hin' Ht Hs), (align_get f _ i r c Hin Ht Hs).
  now rewrite !firstn_map, Hfirst.
Qed.

Lemma truncation_stable_witness :
  sample_disk "a.tlog" = Opened (map Msg ([sys0; att0; hud0] ++ [hud1])) /\
  outcome (process_single_tlog sample_disk "a.tlog") = Returned (Some a_frame) /\
  In (2, a_row) (rows a_frame) /\
  2 < List.length [sys0; att0; hud0] /\
  exists df' r',
    outcome (process_single_tlog
               (fun _ => Opened (map Msg [sys0; att0; hud0])) "a.tlog")
    = Returned (Some df') /\
    In (2, r') (rows df') /\
    forall c, In c ("timestamp" :: tracked_fields) -> get r' c = get a_row c.
Proof.
  assert (H1 : sample_disk "a.tlog" = Opened (map Msg ([sys0; att0; hud0] ++ [hud1])))
    by reflexivity.
  assert (H2 : outcome (process_single_tlog sample_disk "a.tlog")
               = Returned (Some a_frame)) by reflexivity.
  assert (H3 : In (2, a_row) (rows a_frame)) by (vm_compute; left; reflexivity).
  assert (H4 : 2 < List.length [sys0; att0; hud0]) by (simpl; lia).
  split; [exact H1|]. split; [exact H2|].
  split; [exact H3|]. split; [exact H4|].
  exact (truncation_stable sample_disk (fun _ => Opened (map Msg [sys0; att0; hud0]))
                           "a.tlog" [sys0; att0; hud0] [hud1] a_frame 2 a_row
                           H1 eq_refl H2 H3 H4).
Defined.

End Properties.
